(** * LayerForge canvas node: synchronisation and caching core

    A shallow embedding of [canvas_node.py]: the class-level stores of
    [LayerForgeNode] ([_canvas_data_storage], [_canvas_cache],
    [_websocket_data], [_processing_lock]), the cache operations
    [restore_cache] / [update_persistent_cache] / [get_cached_data], the
    computation step [process_canvas_image] with its try / except / finally
    structure, the WebSocket ingestion handler and the input-data routes.

    Conventions.
    - Python dictionaries are [gmap]s; a missing key is [None].
    - The clock is read in integer milliseconds: [time.time()] is [now / 1000]
      seconds, so [int(time.time() * 1000)] is [now] and the 300 second
      threshold of the cleanup is 300000.
    - Every operation is one atomic transition of the shared state; the
      [with _storage_lock:] blocks are therefore transparent, while the
      non-blocking [_processing_lock] is a boolean of the state, so that a
      call arriving while another one is in flight can be expressed. *)

From stdpp Require Import base option strings list gmap fin_maps sorting.
From Stdlib Require Import ZArith Lia Ascii.

Local Open Scope Z_scope.

(** ** Values *)

(** Tensors as the step produces them: [torch.zeros(shape)] or the samples
    of a decoded raster ([torch.from_numpy(arr)[None,]]); samples are kept as
    the 8-bit values before the division by 255.0. *)
Inductive tensor : Type :=
  | zeros (shape : list N)
  | from_numpy (shape : list N) (samples : list N).

(** A decoded PIL image after [.convert('RGB')] or [.convert('L')]. *)
Record pil_image : Type := PilImage {
  width : N;
  height : N;
  pixels : list N
}.

(** JSON scalars as [msg.json()] delivers them. *)
Inductive jvalue : Type :=
  | JNull
  | JBool (b : bool)
  | JNum (z : Z)
  | JStr (s : string).

(** Python truthiness ([if v:], [not v]). *)
Definition truthy (v : jvalue) : bool :=
  match v with
  | JNull => false
  | JBool b => b
  | JNum z => negb (z =? 0)
  | JStr s => negb (String.eqb s "")
  end.

(** Dictionary keys: [str] on the left, [int] on the right. *)
Abbreviation pykey := (string + Z)%type.

(** What an optional tensor argument of the step can be; for [input_image]
    the payload is the list of frames [input_image[i]] (after the
    [unsqueeze(0)] of a single 3-d image), for [input_mask] the mask. *)
Inductive py_arg (A : Type) : Type :=
  | ArgNone                  (* None *)
  | ArgOther                 (* not None, not a torch.Tensor *)
  | ArgTensor (t : A).
Arguments ArgNone {A}.
Arguments ArgOther {A}.
Arguments ArgTensor {A} t.

(** Exceptions raised inside the guarded region. *)
Inductive exn : Type :=
  | IndexError        (* s.split(',')[1] without a comma *)
  | AttributeError    (* .split on a value that is not a str *)
  | CodecError.       (* base64 / PIL failure *)

(** The external codec (base64 + PNG through PIL); [None] is a raised
    exception. *)
Record codec : Type := Codec {
  encode_rgb : tensor -> option (string * N * N);   (* payload, width, height *)
  encode_l : tensor -> option string;
  decode_rgb : string -> option pil_image;
  decode_l : string -> option pil_image
}.

(** ** Dictionaries held in the stores *)

Module InputData.
(** The [input_data] dictionary built by the step. *)
Record t : Type := Make {
  input_image : option string;
  input_image_width : option N;
  input_image_height : option N;
  input_images_batch : option (list (string * N * N));
  input_mask : option string;
  fit_on_add : bool
}.
End InputData.

Module Snapshot.
(** The dictionary written by the WebSocket handler. *)
Record t : Type := Make {
  image : jvalue;
  mask : jvalue;
  timestamp : Z
}.
End Snapshot.

(** Values of [_canvas_data_storage]: both kinds live in the same
    dictionary, the first under ["<node_id>_input"], the second under the
    node id. *)
Inductive entry : Type :=
  | Input (d : InputData.t)
  | Canvas (s : Snapshot.t).

Module Persistent.
(** A non-empty [persistent_cache]: [{'image': ..., 'mask': ...}]. *)
Record t : Type := Make {
  image : option tensor;
  mask : option tensor
}.
End Persistent.

Module FlowStatus.
Record t : Type := Make {
  timestamp : Z;
  stage : string;
  status : string;
  data_info : option string
}.
End FlowStatus.

Module Cache.
(** [_canvas_cache]; [persistent_cache = None] is the empty dict [{}]. *)
Record t : Type := Make {
  image : option tensor;
  mask : option tensor;
  data_flow_status : gmap string FlowStatus.t;
  persistent_cache : option Persistent.t;
  last_execution_id : option Z
}.
End Cache.

(** ** The class-level state of [LayerForgeNode] *)

Record state : Type := State {
  _canvas_data_storage : gmap pykey entry;
  _canvas_cache : Cache.t;
  _websocket_data : gmap pykey Snapshot.t;
  _processing_lock : bool        (* true = held *)
}.

Definition initial_cache : Cache.t :=
  Cache.Make None None ∅ None None.

Definition initial_state : state :=
  State ∅ initial_cache ∅ false.

Definition set_storage (m : gmap pykey entry) (st : state) : state :=
  State m (_canvas_cache st) (_websocket_data st) (_processing_lock st).

Definition set_cache (c : Cache.t) (st : state) : state :=
  State (_canvas_data_storage st) c (_websocket_data st) (_processing_lock st).

Definition set_websocket_data (w : gmap pykey Snapshot.t) (st : state) : state :=
  State (_canvas_data_storage st) (_canvas_cache st) w (_processing_lock st).

Definition set_lock (b : bool) (st : state) : state :=
  State (_canvas_data_storage st) (_canvas_cache st) (_websocket_data st) b.

(** ** ExecutionCache operations *)

(** [get_execution_id]: [str(int(time.time() * 1000))]; the decimal string
    is kept as the integer it prints. *)
Definition get_execution_id (now : Z) : option Z := Some now.

(** [persistent.get('image')] and [persistent.get('mask')]. *)
Definition persistent_get_image (p : option Persistent.t) : option tensor :=
  p ≫= Persistent.image.

Definition persistent_get_mask (p : option Persistent.t) : option tensor :=
  p ≫= Persistent.mask.

Definition restore_cache_on (now : Z) (c : Cache.t) : Cache.t :=
  let persistent := Cache.persistent_cache c in
  let current_execution := get_execution_id now in
  if decide (current_execution ≠ Cache.last_execution_id c) then
    Cache.Make None None (Cache.data_flow_status c)
               (Cache.persistent_cache c) current_execution
  else
    let image' :=
      match persistent_get_image persistent with
      | Some i => Some i
      | None => Cache.image c
      end in
    let mask' :=
      match persistent_get_mask persistent with
      | Some m => Some m
      | None => Cache.mask c
      end in
    Cache.Make image' mask' (Cache.data_flow_status c)
               (Cache.persistent_cache c) (Cache.last_execution_id c).

Definition restore_cache (now : Z) (st : state) : state :=
  set_cache (restore_cache_on now (_canvas_cache st)) st.

Definition update_persistent_cache_on (c : Cache.t) : Cache.t :=
  Cache.Make (Cache.image c) (Cache.mask c) (Cache.data_flow_status c)
             (Some (Persistent.Make (Cache.image c) (Cache.mask c)))
             (Cache.last_execution_id c).

Definition update_persistent_cache (st : state) : state :=
  set_cache (update_persistent_cache_on (_canvas_cache st)) st.

(** [get_cached_data]: the dictionary [{'image': ..., 'mask': ...}] of the
    live fields. *)
Definition get_cached_data (st : state) : option tensor * option tensor :=
  (Cache.image (_canvas_cache st), Cache.mask (_canvas_cache st)).

(** [__init__]: a new node instance restores only when the persistent
    dictionary is non-empty. *)
Definition __init__ (now : Z) (st : state) : state :=
  match Cache.persistent_cache (_canvas_cache st) with
  | Some _ => restore_cache now st
  | None => st
  end.

(** [track_data_flow] for the instance with flow id [flow_id]. *)
Definition track_data_flow (flow_id : string) (now : Z) (stage status : string)
    (data_info : option string) (st : state) : state :=
  let c := _canvas_cache st in
  set_cache
    (Cache.Make (Cache.image c) (Cache.mask c)
       (<[flow_id := FlowStatus.Make now stage status data_info]>
          (Cache.data_flow_status c))
       (Cache.persistent_cache c) (Cache.last_execution_id c))
    st.

(** [get_flow_status]. *)
Definition get_flow_status (flow_id : option string) (st : state)
    : option FlowStatus.t + gmap string FlowStatus.t :=
  match flow_id with
  | Some f =>
      if negb (String.eqb f "") then
        inl (Cache.data_flow_status (_canvas_cache st) !! f)
      else inr (Cache.data_flow_status (_canvas_cache st))
  | None => inr (Cache.data_flow_status (_canvas_cache st))
  end.

(** ** A state-and-exception monad for the guarded region

    A raised exception keeps the mutations made before it. *)

Definition M (A : Type) : Type := state -> (exn + A) * state.

Definition ret {A} (a : A) : M A := fun st => (inr a, st).

Definition raise {A} (e : exn) : M A := fun st => (inl e, st).

Definition bind {A B} (m : M A) (k : A -> M B) : M B :=
  fun st =>
    match m st with
    | (inr a, st') => k a st'
    | (inl e, st') => (inl e, st')
    end.

Definition modify (f : state -> state) : M unit := fun st => (inr tt, f st).

(** Lift an external call that may raise. *)
Definition lift {A} (e : exn) (o : option A) : M A :=
  match o with
  | Some a => ret a
  | None => raise e
  end.

Notation "'let*' x := m 'in' k" := (bind m (fun x => k))
  (at level 10, x name, m at level 100, k at level 200, only parsing).
Notation "'do' m 'then' k" := (bind m (fun _ => k))
  (at level 10, m at level 100, k at level 200, only parsing).

(** ** Store primitives *)

(** [f"{node_id}_input"]. *)
Definition input_key (node_id : string) : pykey := inl (node_id +:+ "_input").

(** [_canvas_data_storage.pop(key, None)]. *)
Definition pop_storage (key : pykey) (st : state) : option entry * state :=
  (_canvas_data_storage st !! key,
   set_storage (delete key (_canvas_data_storage st)) st).

(** The store write of the WebSocket handler:
    [_canvas_data_storage[node_id] = {'image', 'mask', 'timestamp': time.time()}]. *)
Definition receive (now : Z) (key : pykey) (image mask : jvalue) (st : state)
    : state :=
  set_storage
    (<[key := Canvas (Snapshot.Make image mask now)]> (_canvas_data_storage st))
    st.

(** [canvas_data.get('image')] / [canvas_data.get('mask')]: an [input_data]
    dictionary has neither key. *)
Definition entry_get_image (e : entry) : jvalue :=
  match e with
  | Canvas s => Snapshot.image s
  | Input _ => JNull
  end.

Definition entry_get_mask (e : entry) : jvalue :=
  match e with
  | Canvas s => Snapshot.mask s
  | Input _ => JNull
  end.

(** [s.split(sep)] for a one-character separator. *)
Fixpoint split (sep : Ascii.ascii) (s : string) : list string :=
  match s with
  | EmptyString => [EmptyString]
  | String ch rest =>
      if Ascii.eqb ch sep then EmptyString :: split sep rest
      else
        match split sep rest with
        | piece :: pieces => String ch piece :: pieces
        | [] => [String ch EmptyString]
        end
  end.

(** [v.split(',')[1]] on a truthy value. *)
Definition split_payload (v : jvalue) : exn + string :=
  match v with
  | JStr s =>
      match split ","%char s !! 1%nat with
      | Some piece => inr piece
      | None => inl IndexError
      end
  | _ => inl AttributeError
  end.

Definition image_tensor (p : pil_image) : tensor :=
  from_numpy [1%N; height p; width p; 3%N] (pixels p).

Definition mask_tensor (p : pil_image) : tensor :=
  from_numpy [1%N; height p; width p] (pixels p).

Definition blank_image : tensor := zeros [1%N; 512%N; 512%N; 3%N].
Definition blank_mask : tensor := zeros [1%N; 512%N; 512%N].

(** ** The computation step *)

Module Args.
(** The arguments of [process_canvas_image] that the body reads
    ([show_preview], [auto_refresh_after_generation], [trigger], [prompt]
    and [unique_id] are only logged or ignored). *)
Record t : Type := Make {
  fit_on_add : bool;
  node_id : string;
  input_image : py_arg (list tensor);
  input_mask : py_arg tensor
}.
End Args.

(** What the call hands back to the host. *)
Inductive py_return : Type :=
  | RetDict (image mask : option tensor)     (* get_cached_data() *)
  | RetTuple (image mask : option tensor).   (* (image, mask) *)

Section Step.
Context (c : codec).

(** The loop [for i in range(batch_size)]: each frame is encoded in turn,
    the first failure raises. *)
Fixpoint encode_batch (frames : list tensor) : option (list (string * N * N)) :=
  match frames with
  | [] => Some []
  | f :: rest =>
      match encode_rgb c f with
      | Some img =>
          match encode_batch rest with
          | Some imgs => Some (img :: imgs)
          | None => None
          end
      | None => None
      end
  end.

(** The [input_data] dictionary of lines 221-268. *)
Definition build_input_data (a : Args.t) : option InputData.t :=
  match
    match Args.input_image a with
    | ArgTensor frames =>
        match encode_batch frames with
        | Some [(data, w, h)] => Some (Some data, Some w, Some h, None)
        | Some images_array => Some (None, None, None, Some images_array)
        | None => None
        end
    | _ => Some (None, None, None, None)
    end
  with
  | Some (img, w, h, batch) =>
      match
        match Args.input_mask a with
        | ArgTensor m =>
            match encode_l c m with
            | Some s => Some (Some s)
            | None => None
            end
        | _ => Some None
        end
      with
      | Some msk =>
          Some (InputData.Make img w h batch msk (Args.fit_on_add a))
      | None => None
      end
  | None => None
  end.

(** First [with _storage_lock:] block: build and store the input. *)
Definition store_input (a : Args.t) : M unit :=
  let* input_data := lift CodecError (build_input_data a) in
  modify (fun st =>
    set_storage
      (<[input_key (Args.node_id a) := Input input_data]>
         (_canvas_data_storage st)) st).

(** Decoding of one field of the popped dictionary. *)
Definition load_field (decode : string -> option pil_image)
    (to_tensor : pil_image -> tensor) (v : jvalue) : M (option tensor) :=
  if truthy v then
    match split_payload v with
    | inr payload =>
        let* pil := lift CodecError (decode payload) in
        ret (Some (to_tensor pil))
    | inl e => raise e
    end
  else ret None.

Definition or_blank (blank : tensor) (t : option tensor) : option tensor :=
  match t with
  | None => Some blank
  | Some x => Some x
  end.

(** Lines 271-310: pop the pushed entry of the node, decode it, fill in
    the blanks, refresh the shadow copy. *)
Definition pop_and_load (a : Args.t) : M (option tensor * option tensor) :=
  let storage_key : pykey := inl (Args.node_id a) in
  let* canvas_data := (fun st => let (r, st') := pop_storage storage_key st in
                                 (inr r, st')) in
  let* processed :=
    match canvas_data with
    | Some e =>
        let* processed_image :=
          load_field (decode_rgb c) image_tensor (entry_get_image e) in
        let* processed_mask :=
          load_field (decode_l c) mask_tensor (entry_get_mask e) in
        ret (processed_image, processed_mask)
    | None => ret (None, None)
    end in
  let processed_image := or_blank blank_image (fst processed) in
  let processed_mask := or_blank blank_mask (snd processed) in
  do modify update_persistent_cache then
  ret (processed_image, processed_mask).

(** The body of the [try:] after the lock has been acquired
    (lines 217-310). *)
Definition guarded_region (a : Args.t) : M (option tensor * option tensor) :=
  do store_input a then pop_and_load a.


(** [_processing_lock.acquire(blocking=False)]. *)
Definition acquire_nonblocking (st : state) : bool * state :=
  if _processing_lock st then (false, st) else (true, set_lock true st).

(** The [finally:] block: [if lock.locked(): lock.release()]. *)
Definition finally_release (st : state) : state :=
  if _processing_lock st then set_lock false st else st.

(** A call that holds the lock, from the first statement after the
    acquisition to the end: [try] body, [except] and [finally]. *)
Definition complete_call (a : Args.t) (st1 : state) : py_return * state :=
  match guarded_region a st1 with
  | (inr (i, m), st2) => (RetTuple i m, finally_release st2)
  | (inl _, st2) => (RetTuple None None, finally_release st2)
  end.

Definition process_canvas_image (a : Args.t) (st : state) : py_return * state :=
  let (acquired, st1) := acquire_nonblocking st in
  if negb acquired then
    let (i, m) := get_cached_data st1 in
    (RetDict i m, finally_release st1)
  else complete_call a st1.

End Step.

(** ** Staleness cleanup *)

Definition cleanup_threshold : Z := 300 * 1000.

(** The loop test of [_cleanup_old_websocket_data] for an [int] key. *)
Definition to_remove (now : Z) (node_id : Z) (data : Snapshot.t) : bool :=
  (node_id <? 0) || (now - Snapshot.timestamp data >? cleanup_threshold).

Definition is_int_key (k : pykey) : bool :=
  match k with
  | inr _ => true
  | inl _ => false
  end.

Definition keeps (now : Z) (kv : pykey * Snapshot.t) : Prop :=
  match kv.1 with
  | inr z => to_remove now z kv.2 = false
  | inl _ => True
  end.

Global Instance keeps_dec now kv : Decision (keeps now kv).
Proof. unfold keeps. destruct (kv.1); apply _. Defined.

(** [_cleanup_old_websocket_data]: it walks [_websocket_data] only.  The
    comparison [node_id < 0] raises [TypeError] on a [str] key; the raise
    happens inside the collecting loop, before any deletion, and is caught,
    so the dictionary is then left as it was. *)
Definition _cleanup_old_websocket_data (now : Z) (st : state) : state :=
  let ws := _websocket_data st in
  if decide (map_Forall (fun k _ => is_int_key k = true) ws) then
    set_websocket_data (filter (keeps now) ws) st
  else st.

(** ** Route layer *)

Record ws_message : Type := WsMessage {
  nodeId : jvalue;
  image : jvalue;
  mask : jvalue
}.

Inductive ws_reply : Type :=
  | Ack (node_id : jvalue)         (* {'type': 'ack', 'nodeId', 'status': 'success'} *)
  | WsError (message : string).    (* {'status': 'error', 'message'} *)

(** The dictionary key a truthy JSON scalar becomes ([True] hashes and
    compares as [1]). *)
Definition key_of (v : jvalue) : pykey :=
  match v with
  | JStr s => inl s
  | JNum z => inr z
  | JBool b => inr (if b then 1 else 0)
  | JNull => inr 0
  end.

(** One TEXT message of [handle_canvas_websocket]. *)
Definition handle_canvas_websocket (now : Z) (msg : ws_message) (st : state)
    : ws_reply * state :=
  let node_id := nodeId msg in
  if negb (truthy node_id) then (WsError "nodeId is required", st)
  else (Ack node_id, receive now (key_of node_id) (image msg) (mask msg) st).

Inductive input_response : Type :=
  | HasInput (data : entry)     (* success, has_input: True, data *)
  | NoInput.                    (* success, has_input: False *)

(** [GET /layerforge/get_input_data/{node_id}]; every stored dictionary is
    non-empty, hence truthy. *)
Definition get_input_data (node_id : string) (st : state)
    : input_response * state :=
  let input_data := _canvas_data_storage st !! input_key node_id in
  match input_data with
  | Some d => (HasInput d, st)
  | None => (NoInput, st)
  end.

(** [POST /layerforge/clear_input_data/{node_id}]. *)
Definition clear_input_data (node_id : string) (st : state) : bool * state :=
  match _canvas_data_storage st !! input_key node_id with
  | Some _ =>
      (true, set_storage (delete (input_key node_id) (_canvas_data_storage st)) st)
  | None => (true, st)
  end.

(** ** The operations of the core, as one transition system

    A call of the step is either run as one transition ([OpProcess]) or cut
    at the only point where another call can observe it in flight: right
    after the lock has been taken ([OpEnter], then later [OpFinish]).  An
    [OpEnter] that finds the lock held is the skipped call, which has no
    such point. *)

Inductive op : Type :=
  | OpInit (now : Z)                              (* LayerForgeNode() *)
  | OpProcess (a : Args.t)                        (* process_canvas_image *)
  | OpEnter (a : Args.t)                          (* ... up to the acquisition *)
  | OpFinish (a : Args.t)                         (* ... the rest of that call *)
  | OpTrack (flow_id : string) (now : Z) (stage status : string)
            (info : option string)                (* track_data_flow *)
  | OpCleanup (now : Z)                           (* _cleanup_old_websocket_data *)
  | OpWebsocket (now : Z) (msg : ws_message)      (* handle_canvas_websocket *)
  | OpGetInput (node_id : string)                 (* get_input_data *)
  | OpClearInput (node_id : string).              (* clear_input_data *)

Definition run_op (c : codec) (o : op) (st : state) : state :=
  match o with
  | OpInit now => __init__ now st
  | OpProcess a => snd (process_canvas_image c a st)
  | OpEnter a =>
      if _processing_lock st then snd (process_canvas_image c a st)
      else snd (acquire_nonblocking st)
  | OpFinish a => snd (complete_call c a st)
  | OpTrack f now stage status info => track_data_flow f now stage status info st
  | OpCleanup now => _cleanup_old_websocket_data now st
  | OpWebsocket now msg => snd (handle_canvas_websocket now msg st)
  | OpGetInput n => snd (get_input_data n st)
  | OpClearInput n => snd (clear_input_data n st)
  end.

Definition run_ops (c : codec) (os : list op) (st : state) : state :=
  foldl (fun s o => run_op c o s) st os.

(** A codec on which every payload is rejected, for closed examples whose
    inputs carry nothing to encode or decode. *)
Definition rejecting_codec : codec :=
  Codec (fun _ => None) (fun _ => None) (fun _ => None) (fun _ => None).

(** A call with no tensor inputs. *)
Definition bare_call (node_id : string) : Args.t :=
  Args.Make false node_id ArgNone ArgNone.

(** ** Notions used in the statements *)

(** The result of [load_field], which does not touch the state. *)
Definition load_value (decode : string → option pil_image)
    (to_tensor : pil_image → tensor) (v : jvalue) : exn + option tensor :=
  if truthy v then
    match split_payload v with
    | inr payload =>
        match decode payload with
        | Some pil => inr (Some (to_tensor pil))
        | None => inl CodecError
        end
    | inl e => inl e
    end
  else inr None.

(** The live fields are empty and so is whatever the shadow copy holds. *)
Definition never_filled (k : Cache.t) : Prop :=
  Cache.image k = None
  ∧ Cache.mask k = None
  ∧ persistent_get_image (Cache.persistent_cache k) = None
  ∧ persistent_get_mask (Cache.persistent_cache k) = None.

(** What a call of the step binds to [canvas_data] at line 276: the entry
    (or [None]) that the pop returns on the state left by the first
    [with _storage_lock:] block.  The outer [None] is a call that does not
    reach the pop: the lock was held, or storing the input raised. *)
Definition canvas_data_of_call (c : codec) (a : Args.t) (st : state)
    : option (option entry) :=
  let (acquired, st1) := acquire_nonblocking st in
  if acquired then
    match store_input c a st1 with
    | (inr _, st2) => Some (fst (pop_storage (inl (Args.node_id a)) st2))
    | (inl _, _) => None
    end
  else None.

(** What a call returns once [canvas_data] is known (lines 278-310 and the
    [except]). *)
Definition returned_for (c : codec) (canvas_data : option entry) : py_return :=
  match canvas_data with
  | None => RetTuple (Some blank_image) (Some blank_mask)
  | Some e =>
      match load_value (decode_rgb c) image_tensor (entry_get_image e) with
      | inl _ => RetTuple None None
      | inr processed_image =>
          match load_value (decode_l c) mask_tensor (entry_get_mask e) with
          | inl _ => RetTuple None None
          | inr processed_mask =>
              RetTuple (or_blank blank_image processed_image)
                       (or_blank blank_mask processed_mask)
          end
      end
  end.


(** ** The cache route *)

Inductive canvas_response : Type :=
  | CanvasOk (image mask : option string)   (* success: True, data: {image, mask} *)
  | CanvasError.                            (* success: False, error *)

(** [GET /ycnode/get_canvas_data/{node_id}]: a live field that is not
    [None] is sent [.save(buffered, format="PNG")]; the values the core
    handles are tensors, which have no [save], so the [except] answers. *)
Definition get_canvas_data (node_id : string) (st : state)
    : canvas_response * state :=
  match Cache.image (_canvas_cache st), Cache.mask (_canvas_cache st) with
  | None, None => (CanvasOk None None, st)
  | _, _ => (CanvasError, st)
  end.

(** ** Further notions used in the statements *)

(** No occurrence of the separator. *)
Fixpoint sep_free (sep : Ascii.ascii) (s : string) : bool :=
  match s with
  | EmptyString => true
  | String ch rest => negb (Ascii.eqb ch sep) && sep_free sep rest
  end.

(** A codec for closed examples: every tensor encodes to one fixed 1x1
    payload, and the payload "AAAA" decodes to one red pixel. *)
Definition sample_codec : codec :=
  Codec (fun _ => Some ("data:image/png;base64,AAAA", 1%N, 1%N))
        (fun _ => Some "AAAA")
        (fun p => if String.eqb p "AAAA"
                  then Some (PilImage 1 1 [255%N; 0%N; 0%N]) else None)
        (fun p => if String.eqb p "AAAA"
                  then Some (PilImage 1 1 [255%N]) else None).

(** ** The logger ([python/logger.py])

    The singleton [LayerForgeLogger], with the part of the standard
    [logging] module it drives: the handlers attached to the logger
    ["layerforge.<module>"], which live in the process-wide registry of
    [logging] and survive a reset of [self.loggers]. *)

Module Logger.

Inductive LogLevel : Type := DEBUG | INFO | WARN | ERROR | NONE.

Global Instance LogLevel_eq_dec : EqDecision LogLevel.
Proof. solve_decision. Defined.

(** The [IntEnum] values. *)
Definition level_value (l : LogLevel) : Z :=
  match l with
  | DEBUG => 10
  | INFO => 20
  | WARN => 30
  | ERROR => 40
  | NONE => 100
  end.

(** [LEVEL_MAP]: [logging.DEBUG], [INFO], [WARNING], [ERROR] and
    [logging.CRITICAL + 1]. *)
Definition LEVEL_MAP (l : LogLevel) : Z :=
  match l with
  | DEBUG => 10
  | INFO => 20
  | WARN => 30
  | ERROR => 40
  | NONE => 50 + 1
  end.

Record config : Type := Config {
  global_level : LogLevel;
  module_settings : gmap string LogLevel;
  use_colors : bool;
  log_to_file : bool;
  log_dir : string;
  max_file_size_mb : Z;
  backup_count : Z;
  timestamp_format : string
}.

Definition DEFAULT_CONFIG : config :=
  Config INFO ∅ true false "logs" 10 5 "%H:%M:%S".

(** The handlers [_get_logger] attaches. *)
Inductive handler : Type :=
  | StreamHandler (datefmt : string) (use_colors : bool)
  | RotatingFileHandler (log_dir file_name : string) (maxBytes backupCount : Z).

Record t : Type := Make {
  cfg : config;
  enabled : bool;
  loggers : gset string;                   (* the keys of self.loggers *)
  handlers : gmap string (list handler)    (* logging: handlers per module *)
}.

(** [LayerForgeLogger()] with no [LAYERFORGE_*] variable in the
    environment. *)
Definition new : t := Make DEFAULT_CONFIG true ∅ ∅.

Definition set_cfg (c : config) (lg : t) : t :=
  Make c (enabled lg) (loggers lg) (handlers lg).

(** The argument of [configure]: the keys present in the dictionary. *)
Record config_update : Type := ConfigUpdate {
  u_global_level : option LogLevel;
  u_use_colors : option bool;
  u_log_to_file : option bool;
  u_log_dir : option string;
  u_max_file_size_mb : option Z;
  u_backup_count : option Z;
  u_timestamp_format : option string
}.

(** [self.config.update(config)]. *)
Definition update (u : config_update) (c : config) : config :=
  Config (default (global_level c) (u_global_level u))
         (module_settings c)
         (default (use_colors c) (u_use_colors u))
         (default (log_to_file c) (u_log_to_file u))
         (default (log_dir c) (u_log_dir u))
         (default (max_file_size_mb c) (u_max_file_size_mb u))
         (default (backup_count c) (u_backup_count u))
         (default (timestamp_format c) (u_timestamp_format u)).

Definition set_log_to_file (b : bool) (c : config) : config :=
  Config (global_level c) (module_settings c) (use_colors c) b (log_dir c)
         (max_file_size_mb c) (backup_count c) (timestamp_format c).

Definition set_log_dir (d : string) (c : config) : config :=
  Config (global_level c) (module_settings c) (use_colors c) (log_to_file c) d
         (max_file_size_mb c) (backup_count c) (timestamp_format c).

(** [configure]; [makedirs] tells whether [os.makedirs(dir, exist_ok=True)]
    succeeds. *)
Definition configure (makedirs : string → bool) (u : config_update) (lg : t) : t :=
  let c := update u (cfg lg) in
  if log_to_file c && negb (String.eqb (log_dir c) "") then
    if makedirs (log_dir c) then set_cfg c lg
    else set_cfg (set_log_to_file false c) lg
  else set_cfg c lg.

Definition set_enabled (b : bool) (lg : t) : t :=
  Make (cfg lg) b (loggers lg) (handlers lg).

Definition set_global_level (level : LogLevel) (lg : t) : t :=
  let c := cfg lg in
  set_cfg (Config level (module_settings c) (use_colors c) (log_to_file c)
             (log_dir c) (max_file_size_mb c) (backup_count c)
             (timestamp_format c)) lg.

Definition set_module_level (mdl : string) (level : LogLevel) (lg : t) : t :=
  let c := cfg lg in
  set_cfg (Config (global_level c) (<[mdl := level]> (module_settings c))
             (use_colors c) (log_to_file c) (log_dir c) (max_file_size_mb c)
             (backup_count c) (timestamp_format c)) lg.

Definition is_level_enabled (lg : t) (mdl : string) (level : LogLevel) : bool :=
  if negb (enabled lg) then false
  else
    let effective_level :=
      default (global_level (cfg lg)) (module_settings (cfg lg) !! mdl) in
    if decide (effective_level = NONE) then false
    else level_value level >=? level_value effective_level.

(** [_get_logger]: the handlers of the module's logger after the call.  A
    module found in [self.loggers] is returned as it is; otherwise a console
    handler, and a file handler when [log_to_file] is on, are added to the
    ones the [logging] logger of that name already has.
    [can_open log_dir file_name] tells whether [RotatingFileHandler(...)]
    can open the log file.  When it cannot, the constructor raises (the
    result [None]): the console handler is attached by then, the file
    handler is not, and the module is not entered in [self.loggers]. *)
Definition _get_logger (can_open : string → string → bool) (mdl : string)
    (lg : t) : option (list handler) * t :=
  let attached := default [] (handlers lg !! mdl) in
  if decide (mdl ∈ loggers lg) then (Some attached, lg)
  else
    let c := cfg lg in
    let console := StreamHandler (timestamp_format c) (use_colors c) in
    let with_console := attached ++ [console] in
    if log_to_file c then
      let file_name := "layerforge_" +:+ mdl +:+ ".log" in
      if can_open (log_dir c) file_name then
        let hs :=
          with_console
          ++ [RotatingFileHandler (log_dir c) file_name
                (max_file_size_mb c * 1024 * 1024) (backup_count c)] in
        (Some hs,
         Make c (enabled lg) ({[mdl]} ∪ loggers lg) (<[mdl := hs]> (handlers lg)))
      else
        (None,
         Make c (enabled lg) (loggers lg) (<[mdl := with_console]> (handlers lg)))
    else
      (Some with_console,
       Make c (enabled lg) ({[mdl]} ∪ loggers lg)
         (<[mdl := with_console]> (handlers lg))).

(** One record handed to one handler. *)
Record emission : Type := Emission {
  to : handler;
  levelno : Z;
  message : string;
  exc_info : bool
}.

(** [" ".join(str(arg) for arg in args)]. *)
Definition join_args (args : list string) : string := String.concat " " args.

(** [log]: the records written by the call, or [None] when [_get_logger]
    raises. *)
Definition log (can_open : string → string → bool) (mdl : string)
    (level : LogLevel) (args : list string) (with_exc : bool) (lg : t)
    : option (list emission) * t :=
  if negb (is_level_enabled lg mdl level) then (Some [], lg)
  else
    match _get_logger can_open mdl lg with
    | (Some hs, lg') =>
        (Some (map (fun h => Emission h (LEVEL_MAP level) (join_args args) with_exc)
                 hs),
         lg')
    | (None, lg') => (None, lg')
    end.

Definition debug can_open (mdl : string) (args : list string) :=
  log can_open mdl DEBUG args false.
Definition info can_open (mdl : string) (args : list string) :=
  log can_open mdl INFO args false.
Definition warn can_open (mdl : string) (args : list string) :=
  log can_open mdl WARN args false.
Definition error can_open (mdl : string) (args : list string) :=
  log can_open mdl ERROR args false.
Definition exception can_open (mdl : string) (args : list string) :=
  log can_open mdl ERROR args true.

(** [set_debug]. *)
Definition set_debug (on : bool) (lg : t) : t :=
  if on then set_global_level DEBUG lg else set_global_level INFO lg.

(** [set_file_logging]; the result is [None] when [os.makedirs] raises,
    which happens after the configuration was written and before
    [self.loggers] is reset. *)
Definition set_file_logging (makedirs : string → bool) (on : bool)
    (dir : option string) (lg : t) : option unit * t :=
  let lg1 := set_cfg (set_log_to_file on (cfg lg)) lg in
  match dir with
  | Some d =>
      if negb (String.eqb d "") then
        let lg2 := set_cfg (set_log_dir d (cfg lg1)) lg1 in
        if makedirs d then
          (Some tt, Make (cfg lg2) (enabled lg2) ∅ (handlers lg2))
        else (None, lg2)
      else (Some tt, Make (cfg lg1) (enabled lg1) ∅ (handlers lg1))
  | None => (Some tt, Make (cfg lg1) (enabled lg1) ∅ (handlers lg1))
  end.

(** *** [ColoredFormatter] *)

(** [logging.getLevelName] on the numbers [LEVEL_MAP] produces. *)
Definition levelname (l : LogLevel) : string :=
  match l with
  | DEBUG => "DEBUG"
  | INFO => "INFO"
  | WARN => "WARNING"
  | ERROR => "ERROR"
  | NONE => "Level 51"
  end.

(** [hasattr(LogLevel, levelname)] followed by [getattr]: the member of
    that name (no other attribute of the class is a key of [COLORS]). *)
Definition member (name : string) : option LogLevel :=
  if String.eqb name "DEBUG" then Some DEBUG
  else if String.eqb name "INFO" then Some INFO
  else if String.eqb name "WARN" then Some WARN
  else if String.eqb name "ERROR" then Some ERROR
  else if String.eqb name "NONE" then Some NONE
  else None.

Definition ESC : string := String "027"%char EmptyString.

(** [COLORS]; [NONE] is not a key. *)
Definition COLORS (l : LogLevel) : option string :=
  match l with
  | DEBUG => Some (ESC +:+ "[90m")
  | INFO => Some (ESC +:+ "[94m")
  | WARN => Some (ESC +:+ "[93m")
  | ERROR => Some (ESC +:+ "[91m")
  | NONE => None
  end.

Definition RESET : string := ESC +:+ "[0m".

(** What [format] reads from a record; [asctime] is [formatTime(record)]
    and [exc_text] is [formatException(record.exc_info)] when there is
    one. *)
Record log_record : Type := LogRecord {
  asctime : string;
  name : string;
  r_levelname : string;
  r_message : string;
  exc_text : option string
}.

Definition format (colors : bool) (r : log_record) : string :=
  let msg :=
    match exc_text r with
    | Some e => r_message r +:+ (String "010"%char EmptyString) +:+ e
    | None => r_message r
    end in
  let prefix :=
    "[" +:+ asctime r +:+ "] [" +:+ name r +:+ "] [" +:+ r_levelname r +:+ "]" in
  let prefix' :=
    if colors then
      match member (r_levelname r) with
      | Some level_enum =>
          match COLORS level_enum with
          | Some col => ESC +:+ "[1m" +:+ col +:+ prefix +:+ RESET
          | None => prefix
          end
      | None => prefix
      end
    else prefix in
  prefix' +:+ " " +:+ msg.

(** The record [logging] builds for a call of [log] on module [mdl]. *)
Definition record_of (mdl : string) (level : LogLevel) (time msg : string)
    (exc : option string) : log_record :=
  LogRecord time ("layerforge." +:+ mdl) (levelname level) msg exc.

End Logger.

(** ** Files of the output directory

    Paths are byte strings; [lower] folds the ASCII letters, which is all
    that the suffix tests against ASCII extensions can see. *)

Module Files.

Definition lower_ascii (ch : Ascii.ascii) : Ascii.ascii :=
  let n := Ascii.N_of_ascii ch in
  if ((65 <=? n) && (n <=? 90))%N then Ascii.ascii_of_N (n + 32) else ch.

(** [s.lower()]. *)
Fixpoint lower (s : string) : string :=
  match s with
  | EmptyString => EmptyString
  | String ch rest => String (lower_ascii ch) (lower rest)
  end.

(** [s.endswith(suffix)]. *)
Fixpoint endswith (suffix s : string) : bool :=
  String.eqb s suffix
  || match s with
     | EmptyString => false
     | String _ rest => endswith suffix rest
     end.

(** [s.endswith(tuple)]. *)
Definition endswith_any (suffixes : list string) (s : string) : bool :=
  existsb (fun suffix => endswith suffix s) suffixes.

(** [s.startswith(prefix)]. *)
Fixpoint startswith (prefix s : string) : bool :=
  match prefix, s with
  | EmptyString, _ => true
  | String a p, String b r => Ascii.eqb a b && startswith p r
  | String _ _, EmptyString => false
  end.

Definition image_extensions : list string :=
  [".png"; ".jpg"; ".jpeg"; ".bmp"; ".gif"].

Definition is_image_path (file_path : string) : bool :=
  endswith_any image_extensions (lower file_path).

(** One name of [os.listdir(output_dir)]: its joined path, what
    [os.path.isfile] says, and what [os.path.getmtime] / [getctime] return
    ([None] when they raise [OSError]). *)
Record file : Type := File {
  path : string;
  isfile : bool;
  getmtime : option Z;
  getctime : option Z
}.

(** The loop of [get_latest_images]: the list [files] before the sort. *)
Fixpoint newer_files (since_timestamp : Z) (listing : list file)
    : list (Z * string) :=
  match listing with
  | [] => []
  | f :: rest =>
      if isfile f && is_image_path (path f) then
        match getmtime f with
        | Some mtime =>
            if mtime >? since_timestamp
            then (mtime, path f) :: newer_files since_timestamp rest
            else newer_files since_timestamp rest
        | None => newer_files since_timestamp rest      (* except OSError: continue *)
        end
      else newer_files since_timestamp rest
  end.

(** [files.sort(key=lambda x: x[0])], a stable sort: an element goes in
    front of the first element whose key is not smaller. *)
Fixpoint insert_by_key (x : Z * string) (sorted : list (Z * string))
    : list (Z * string) :=
  match sorted with
  | [] => [x]
  | y :: rest =>
      if fst x <=? fst y then x :: y :: rest else y :: insert_by_key x rest
  end.

Definition sort_by_key (l : list (Z * string)) : list (Z * string) :=
  foldr insert_by_key [] l.

Definition get_latest_images (since_timestamp : Z) (listing : list file)
    : list string :=
  snd <$> sort_by_key (newer_files since_timestamp listing).

(** [max(image_files, key=os.path.getctime)] on a non-empty list: the first
    file with the greatest key; [None] when a [getctime] raises. *)
Fixpoint max_by_ctime (best : Z * file) (rest : list file) : option file :=
  match rest with
  | [] => Some (snd best)
  | f :: rest' =>
      match getctime f with
      | Some t =>
          if t >? fst best then max_by_ctime (t, f) rest'
          else max_by_ctime best rest'
      | None => None
      end
  end.

(** [get_latest_image]: [inl tt] is the [OSError] of a [getctime],
    [inr None] the answer for a directory without image files. *)
Definition get_latest_image (listing : list file) : unit + option string :=
  let files := filter (fun f => isfile f = true) listing in
  let image_files := filter (fun f => is_image_path (path f) = true) files in
  match image_files with
  | [] => inr None
  | f :: rest =>
      match getctime f with
      | Some t =>
          match max_by_ctime (t, f) rest with
          | Some latest => inr (Some (path latest))
          | None => inl tt
          end
      | None => inl tt
      end
  end.

(** *** [POST /ycnode/load_image_from_path] *)

Definition valid_extensions : list string :=
  [".png"; ".jpg"; ".jpeg"; ".gif"; ".bmp"; ".webp"; ".tiff"; ".tif"; ".ico";
   ".avif"].

Inductive path_reply : Type :=
  | PathRequired          (* 400, 'file_path is required' *)
  | FileNotFound          (* 404 *)
  | InvalidExtension      (* 400 *)
  | ProcessingError       (* 500, the inner except *)
  | Unexpected            (* 500, the outer except *)
  | Loaded (image_data : string) (width height : N).

(** [exists] is [os.path.exists] on a path, [fd_exists] the same on an
    integer (an open file descriptor), [load] the [with Image.open(...)]
    block: payload, width and height, or [None] when it raises. *)
Definition load_image_from_path_route (exists_ : string → bool)
    (fd_exists : Z → bool) (load : string → option (string * N * N))
    (file_path : jvalue) : path_reply :=
  if negb (truthy file_path) then PathRequired
  else
    match file_path with
    | JStr p =>
        if negb (exists_ p) then FileNotFound
        else if negb (endswith_any valid_extensions (lower p)) then InvalidExtension
        else
          match load p with
          | Some (img_str, w, h) =>
              Loaded ("data:image/png;base64," +:+ img_str) w h
          | None => ProcessingError
          end
    | JNum z =>
        if negb (fd_exists z) then FileNotFound else Unexpected   (* int has no lower() *)
    | JBool b =>
        if negb (fd_exists (if b then 1 else 0)) then FileNotFound else Unexpected
    | JNull => PathRequired
    end.

End Files.

(** ** The image kept by a node instance ([store_image], [get_cached_image]) *)

Module ImageStore.

(** What [self.cached_image] holds once set. *)
Inductive cached : Type :=
  | Pil (p : pil_image)      (* the result of Image.open *)
  | Raw (v : jvalue).        (* the argument, kept as it came *)

(** The argument of [store_image]: a JSON scalar or an image object. *)
Inductive image_data : Type :=
  | Value (v : jvalue)
  | Object (p : pil_image).

(** The attribute [cached_image]; [None] while no [store_image] has set it
    ([__init__] does not). *)
Definition instance : Type := option cached.

Inductive store_exn : Type :=
  | StoreIndexError         (* split(',')[1] *)
  | StoreCodecError         (* b64decode / Image.open / save *)
  | StoreAttributeError.    (* no attribute cached_image, or no save() *)

(** [store_image]; an exception leaves the attribute as it was. *)
Definition store_image (open_image : string → option pil_image)
    (arg : image_data) (self : instance) : store_exn + instance :=
  match arg with
  | Value (JStr s) =>
      if Files.startswith "data:image" s then
        match split ","%char s !! 1%nat with
        | Some payload =>
            match open_image payload with
            | Some p => inr (Some (Pil p))
            | None => inl StoreCodecError
            end
        | None => inl StoreIndexError
        end
      else inr (Some (Raw (JStr s)))
  | Value v => inr (Some (Raw v))
  | Object p => inr (Some (Pil p))
  end.

(** [get_cached_image]: an image object is always truthy. *)
Definition get_cached_image (save_png : pil_image → option string)
    (self : instance) : store_exn + option string :=
  match self with
  | None => inl StoreAttributeError
  | Some (Pil p) =>
      match save_png p with
      | Some img_str => inr (Some ("data:image/png;base64," +:+ img_str))
      | None => inl StoreCodecError
      end
  | Some (Raw v) => if truthy v then inl StoreAttributeError else inr None
  end.

End ImageStore.

(** ** The matting gate ([_matting_lock] of the [/matting] route) *)

Module Matting.

Inductive reply : Type :=
  | DependencyNotFound      (* 400 *)
  | Busy                    (* 429 *)
  | Matted (matted_image alpha_mask : string)
  | ModelError              (* 500, RuntimeError *)
  | UnexpectedError.        (* 500 *)

(** How the body of the [try] ends. *)
Inductive body : Type :=
  | BodyOk (matted_image alpha_mask : string)
  | BodyRuntimeError
  | BodyException.

(** The route up to [_matting_lock = True]; the lock is [true] for [True]
    and [false] for [None].  [None] as a reply means the request went on
    into the [try]. *)
Definition enter (transformers_available : bool) (lock : bool)
    : option reply * bool :=
  if negb transformers_available then (Some DependencyNotFound, lock)
  else if lock then (Some Busy, lock)
  else (None, true).

(** The rest of an admitted request: the reply of the [try] / [except] and
    the [finally]. *)
Definition finish (b : body) (lock : bool) : reply * bool :=
  (match b with
   | BodyOk i m => Matted i m
   | BodyRuntimeError => ModelError
   | BodyException => UnexpectedError
   end,
   false).

(** Requests arrive, and requests that were let in finish, in any order (the
    body awaits).  [running] counts the requests that are inside the [try]. *)
Inductive event : Type :=
  | Arrive
  | Finish (b : body).

Record gate : Type := Gate {
  lock : bool;
  running : nat
}.

Definition step (available : bool) (g : gate) (e : event) : gate :=
  match e with
  | Arrive =>
      match enter available (lock g) with
      | (None, l) => Gate l (S (running g))
      | (Some _, l) => Gate l (running g)
      end
  | Finish b =>
      match running g with
      | O => g                                   (* nobody is inside *)
      | S n => Gate (snd (finish b (lock g))) n
      end
  end.

Definition run (available : bool) (events : list event) : gate :=
  foldl (step available) (Gate false 0) events.

(** The gate is held exactly while one request is inside. *)
Definition gate_ok (g : gate) : Prop :=
  (lock g = true ∧ running g = 1%nat) ∨ (lock g = false ∧ running g = 0%nat).

End Matting.

(** * Properties *)

(** ** Keys *)

Lemma app_suffix_neq (s t : string) : t ≠ EmptyString → s +:+ t ≠ s.
Proof.
  intros Ht. induction s as [|ch s IH]; simpl.
  - exact Ht.
  - intros H. injection H as H. exact (IH H).
Qed.

(** The input snapshot of a node never sits under the key the step pops for
    that node. *)
Lemma input_key_neq (node_id : string) : input_key node_id ≠ inl node_id.
Proof.
  unfold input_key. intros H. injection H as H.
  revert H. apply app_suffix_neq. discriminate.
Qed.

(** ** Frame lemmas for the record updates *)

Lemma storage_set_cache c st :
  _canvas_data_storage (set_cache c st) = _canvas_data_storage st.
Proof. reflexivity. Qed.

Lemma lock_finally_release st : _processing_lock (finally_release st) = false.
Proof. unfold finally_release. destruct (_processing_lock st) eqn:E; [reflexivity | exact E]. Qed.

Lemma cache_finally_release st :
  _canvas_cache (finally_release st) = _canvas_cache st.
Proof. unfold finally_release. destruct (_processing_lock st); reflexivity. Qed.

Lemma storage_finally_release st :
  _canvas_data_storage (finally_release st) = _canvas_data_storage st.
Proof. unfold finally_release. destruct (_processing_lock st); reflexivity. Qed.

(** ** PushChannelStore *)

Section PushChannel.
Implicit Types (st : state) (key : pykey) (img msk : jvalue) (now : Z).

Lemma pop_receive now key img msk st :
  fst (pop_storage key (receive now key img msk st))
  = Some (Canvas (Snapshot.Make img msk now)).
Proof. unfold pop_storage, receive. simpl. apply lookup_insert_eq. Qed.

Lemma pop_pop key st :
  fst (pop_storage key (snd (pop_storage key st))) = None.
Proof. unfold pop_storage. simpl. apply lookup_delete_eq. Qed.

Lemma pop_other key key' st :
  key ≠ key' →
  fst (pop_storage key' (snd (pop_storage key st))) = fst (pop_storage key' st).
Proof. intros Hne. unfold pop_storage. simpl. by apply lookup_delete_ne. Qed.

Lemma receive_receive t1 t2 key i1 m1 i2 m2 st :
  receive t2 key i2 m2 (receive t1 key i1 m1 st) = receive t2 key i2 m2 st.
Proof.
  unfold receive, set_storage. simpl. f_equal. apply insert_insert_eq.
Qed.

End PushChannel.

(** On the dictionary alone: a pop after two writes under a key returns
    the later one, the next pop returns nothing, and a pop after a new write
    returns that. *)
Lemma pop_storage_once (key : pykey) (t1 t2 t3 : Z) (i1 m1 i2 m2 i3 m3 : jvalue)
    (st : state) :
  let taken := pop_storage key (receive t2 key i2 m2 (receive t1 key i1 m1 st)) in
  let again := pop_storage key (snd taken) in
  fst taken = Some (Canvas (Snapshot.Make i2 m2 t2))
  ∧ fst again = None
  ∧ fst (pop_storage key (receive t3 key i3 m3 (snd again)))
    = Some (Canvas (Snapshot.Make i3 m3 t3)).
Proof.
  cbv zeta. split; [apply pop_receive|].
  split; [apply pop_pop | apply pop_receive].
Qed.

(** ** NodeInputStore polling *)

(** C10. The poll endpoint [get_input_data] is a pure read: the whole state,
    hence the stored input snapshot and every other entry, is what it was,
    and polling again answers the same. *)
Theorem get_input_data_pure (node_id : string) (st : state) :
  snd (get_input_data node_id st) = st
  ∧ fst (get_input_data node_id (snd (get_input_data node_id st)))
    = fst (get_input_data node_id st).
Proof.
  assert (H : snd (get_input_data node_id st) = st).
  { unfold get_input_data.
    destruct (_canvas_data_storage st !! input_key node_id); reflexivity. }
  split; [exact H | by rewrite H].
Qed.

(** ** The guarded region *)

Lemma load_field_eq decode to_tensor v st :
  load_field decode to_tensor v st = (load_value decode to_tensor v, st).
Proof.
  unfold load_field, load_value, bind, lift, ret, raise.
  destruct (truthy v); [|reflexivity].
  destruct (split_payload v) as [e|payload]; [reflexivity|].
  destruct (decode payload); reflexivity.
Qed.

Section GuardedRegion.
Context (c : codec).
Implicit Types (a : Args.t) (st : state).

(** The region written out as one case analysis. *)
Lemma guarded_region_eq a st :
  guarded_region c a st =
  match build_input_data c a with
  | None => (inl CodecError, st)
  | Some d =>
      let stored :=
        <[input_key (Args.node_id a) := Input d]> (_canvas_data_storage st) in
      let popped := set_storage (delete (inl (Args.node_id a)) stored) st in
      match stored !! inl (Args.node_id a) with
      | None =>
          (inr (Some blank_image, Some blank_mask),
           update_persistent_cache popped)
      | Some e =>
          match load_value (decode_rgb c) image_tensor (entry_get_image e) with
          | inl ex => (inl ex, popped)
          | inr pi =>
              match load_value (decode_l c) mask_tensor (entry_get_mask e) with
              | inl ex => (inl ex, popped)
              | inr pm =>
                  (inr (or_blank blank_image pi, or_blank blank_mask pm),
                   update_persistent_cache popped)
              end
          end
      end
  end.
Proof.
  unfold guarded_region, pop_and_load, store_input, bind, lift, modify,
    ret, raise, pop_storage.
  destruct (build_input_data c a) as [d|]; [|reflexivity].
  cbv zeta. cbn [fst snd _canvas_data_storage set_storage].
  destruct (<[input_key (Args.node_id a) := Input d]> (_canvas_data_storage st)
              !! inl (Args.node_id a)) as [e|]; [|reflexivity].
  rewrite load_field_eq.
  destruct (load_value (decode_rgb c) _ _) as [ex|pi]; [reflexivity|].
  rewrite load_field_eq.
  destruct (load_value (decode_l c) _ _) as [ex|pm]; reflexivity.
Qed.

(** The region touches neither the lock nor [_websocket_data]; it rewrites
    the cache only by its final [update_persistent_cache], which an
    exception skips. *)
Lemma guarded_region_frame a st :
  let out := guarded_region c a st in
  _processing_lock (snd out) = _processing_lock st
  ∧ _websocket_data (snd out) = _websocket_data st
  ∧ _canvas_cache (snd out)
    = match fst out with
      | inr _ => update_persistent_cache_on (_canvas_cache st)
      | inl _ => _canvas_cache st
      end.
Proof.
  cbv zeta. rewrite guarded_region_eq. cbv zeta.
  repeat case_match; simpl; done.
Qed.

(** When persisting the input raises, nothing was stored and nothing was
    popped. *)
Lemma guarded_region_input_fails a st :
  build_input_data c a = None →
  guarded_region c a st = (inl CodecError, st).
Proof. intros H. by rewrite guarded_region_eq, H. Qed.

(** Otherwise the input is stored first and the entry of the node is
    popped from the dictionary that already holds it. *)
Lemma guarded_region_storage a st d :
  build_input_data c a = Some d →
  _canvas_data_storage (snd (guarded_region c a st))
  = delete (inl (Args.node_id a))
      (<[input_key (Args.node_id a) := Input d]> (_canvas_data_storage st)).
Proof.
  intros H. rewrite guarded_region_eq, H. cbv zeta.
  repeat case_match; simpl; done.
Qed.

(** With no entry to pop, the region cannot raise after the input has been
    stored, and it produces the two blank tensors. *)
Lemma guarded_region_no_entry a st d :
  build_input_data c a = Some d →
  _canvas_data_storage st !! inl (Args.node_id a) = None →
  fst (guarded_region c a st) = inr (Some blank_image, Some blank_mask).
Proof.
  intros H Hno. rewrite guarded_region_eq, H. cbv zeta.
  rewrite lookup_insert_ne by apply input_key_neq.
  by rewrite Hno.
Qed.

(** A region that does not raise returns two tensors, never [None]. *)
Lemma guarded_region_some a st i m :
  fst (guarded_region c a st) = inr (i, m) → is_Some i ∧ is_Some m.
Proof.
  rewrite guarded_region_eq. cbv zeta.
  repeat case_match; simpl; try done;
    intros [= ? ?]; subst; unfold or_blank; split; repeat case_match; eauto.
Qed.

(** A region that does not raise had its input stored. *)
Lemma guarded_region_inr_input a st r :
  fst (guarded_region c a st) = inr r → is_Some (build_input_data c a).
Proof.
  rewrite guarded_region_eq.
  destruct (build_input_data c a); [eauto | done].
Qed.

End GuardedRegion.

(** ** The two paths of [process_canvas_image] *)

Section Paths.
Context (c : codec).
Implicit Types (a : Args.t) (st : state).

Lemma process_skipped a st :
  _processing_lock st = true →
  process_canvas_image c a st
  = (RetDict (Cache.image (_canvas_cache st)) (Cache.mask (_canvas_cache st)),
     set_lock false st).
Proof.
  intros H. unfold process_canvas_image, acquire_nonblocking, finally_release.
  rewrite H. simpl. by rewrite H.
Qed.

Lemma process_acquired a st :
  _processing_lock st = false →
  process_canvas_image c a st = complete_call c a (set_lock true st).
Proof.
  intros H. unfold process_canvas_image, acquire_nonblocking.
  by rewrite H.
Qed.

(** A call that holds the lock ends either on the success path, with two
    tensors and the shadow copy refreshed, or on the [except] path, with
    [(None, None)] and the cache as it was. *)
Lemma complete_call_cases a st :
  let out := complete_call c a st in
  (∃ i m r, fst out = RetTuple (Some i) (Some m)
            ∧ fst (guarded_region c a st) = inr r
            ∧ _canvas_cache (snd out) = update_persistent_cache_on (_canvas_cache st))
  ∨ (∃ e, fst out = RetTuple None None
          ∧ fst (guarded_region c a st) = inl e
          ∧ _canvas_cache (snd out) = _canvas_cache st).
Proof.
  cbv zeta. unfold complete_call.
  pose proof (guarded_region_frame c a st) as (_ & _ & Hc).
  destruct (guarded_region c a st) as [[e|[i m]] st2] eqn:E; simpl in *.
  - right. exists e. by rewrite cache_finally_release.
  - left. destruct (guarded_region_some c a st i m) as [[i' ->] [m' ->]].
    { by rewrite E. }
    exists i', m', (Some i', Some m'). by rewrite cache_finally_release.
Qed.

Lemma complete_call_lock a st :
  _processing_lock (snd (complete_call c a st)) = false.
Proof.
  unfold complete_call.
  destruct (guarded_region c a st) as [[e|[i m]] st2]; apply lock_finally_release.
Qed.

End Paths.

(** C8. Default safety: when a call acquires the guard, the guarded region
    does not raise, and the store holds no pushed entry for the node id, the
    call returns the blank image of shape (1, 512, 512, 3) and the blank mask
    of shape (1, 512, 512), whatever the cache holds; neither is [None]. *)
Theorem default_safety (c : codec) (a : Args.t) (st : state)
    (r : option tensor * option tensor) :
  _processing_lock st = false →
  _canvas_data_storage st !! inl (Args.node_id a) = None →
  fst (guarded_region c a (set_lock true st)) = inr r →
  fst (process_canvas_image c a st)
  = RetTuple (Some (zeros [1%N; 512%N; 512%N; 3%N]))
             (Some (zeros [1%N; 512%N; 512%N])).
Proof.
  intros Hlock Hno Hr. rewrite process_acquired by done.
  destruct (guarded_region_inr_input c a _ r Hr) as [d Hd].
  pose proof (guarded_region_no_entry c a (set_lock true st) d Hd Hno) as Hb.
  unfold complete_call.
  destruct (guarded_region c a (set_lock true st)) as [[e|[i m]] st2];
    simpl in *; [done|].
  by injection Hb as -> ->.
Qed.

Lemma default_safety_witness :
  fst (process_canvas_image rejecting_codec (bare_call "n1") initial_state)
  = RetTuple (Some (zeros [1%N; 512%N; 512%N; 3%N]))
             (Some (zeros [1%N; 512%N; 512%N])).
Proof.
  apply (default_safety rejecting_codec (bare_call "n1") initial_state
           (Some blank_image, Some blank_mask)); reflexivity.
Defined.

(** ** The persistent shadow copy *)

Lemma restore_cache_persistent now st :
  Cache.persistent_cache (_canvas_cache (restore_cache now st))
  = Cache.persistent_cache (_canvas_cache st).
Proof.
  unfold restore_cache, restore_cache_on. simpl. by case_decide.
Qed.

(** C9. Every operation of the core either leaves [persistent_cache] as it
    was, or replaces it as a whole by the pair of the live [image] and [mask]
    fields; the second happens only in a call of the step that went through
    the guarded region without raising and returned its two tensors. *)
Theorem persistent_wholesale (c : codec) (o : op) (st : state) :
  let st' := run_op c o st in
  Cache.persistent_cache (_canvas_cache st')
  = Cache.persistent_cache (_canvas_cache st)
  ∨ (Cache.persistent_cache (_canvas_cache st')
     = Some (Persistent.Make (Cache.image (_canvas_cache st'))
                             (Cache.mask (_canvas_cache st')))
     ∧ ∃ a i m,
         (o = OpProcess a
          ∧ fst (process_canvas_image c a st) = RetTuple (Some i) (Some m))
         ∨ (o = OpFinish a
            ∧ fst (complete_call c a st) = RetTuple (Some i) (Some m))).
Proof.
  cbv zeta.
  assert (Hcall : ∀ a st1,
    let out := complete_call c a st1 in
    Cache.persistent_cache (_canvas_cache (snd out))
    = Cache.persistent_cache (_canvas_cache st1)
    ∨ (Cache.persistent_cache (_canvas_cache (snd out))
       = Some (Persistent.Make (Cache.image (_canvas_cache (snd out)))
                               (Cache.mask (_canvas_cache (snd out))))
       ∧ ∃ i m, fst out = RetTuple (Some i) (Some m))).
  { intros a st1. cbv zeta.
    destruct (complete_call_cases c a st1) as [(i & m & r & Hret & _ & Hc)|(e & _ & _ & Hc)].
    - right. rewrite Hc. split; [reflexivity | eauto].
    - left. by rewrite Hc. }
  destruct o as [now|a|a|a|f now stage status info|now|now msg|n|n]; simpl.
  - left. unfold __init__.
    destruct (Cache.persistent_cache (_canvas_cache st)) eqn:E;
      [by rewrite restore_cache_persistent | done].
  - destruct (_processing_lock st) eqn:Hl.
    + left. by rewrite process_skipped.
    + rewrite process_acquired by done.
      destruct (Hcall a (set_lock true st)) as [H|[H (i & m & Hret)]];
        [by left|].
      right. split; [exact H|]. exists a, i, m. left.
      split; [done | by rewrite process_acquired].
  - left. destruct (_processing_lock st) eqn:Hl.
    + by rewrite process_skipped.
    + unfold acquire_nonblocking. by rewrite Hl.
  - destruct (Hcall a st) as [H|[H (i & m & Hret)]]; [by left|].
    right. split; [exact H|]. exists a, i, m. right. by split.
  - by left.
  - left. unfold _cleanup_old_websocket_data. by case_decide.
  - left. unfold handle_canvas_websocket. by case_match.
  - left. unfold get_input_data. by case_match.
  - left. unfold clear_input_data. by case_match.
Qed.

(** ** ExecutionCache *)

Section ExecutionCache.
Implicit Types (st : state) (now : Z).

(** A different execution id clears the live fields and is recorded. *)
Lemma restore_cache_new_execution now st :
  Cache.last_execution_id (_canvas_cache st) ≠ get_execution_id now →
  get_cached_data (restore_cache now st) = (None, None)
  ∧ Cache.last_execution_id (_canvas_cache (restore_cache now st))
    = get_execution_id now.
Proof.
  intros Hne. unfold get_cached_data, restore_cache, restore_cache_on. simpl.
  case_decide; [done | congruence].
Qed.

(** The same execution id copies back each field of the shadow copy that
    is not [None]. *)
Lemma restore_cache_same_execution now st :
  Cache.last_execution_id (_canvas_cache st) = get_execution_id now →
  get_cached_data (restore_cache now st)
  = (match persistent_get_image (Cache.persistent_cache (_canvas_cache st)) with
     | Some i => Some i
     | None => Cache.image (_canvas_cache st)
     end,
     match persistent_get_mask (Cache.persistent_cache (_canvas_cache st)) with
     | Some m => Some m
     | None => Cache.mask (_canvas_cache st)
     end).
Proof.
  intros He. unfold get_cached_data, restore_cache, restore_cache_on. simpl.
  case_decide; [congruence | done].
Qed.

End ExecutionCache.

(** *** No operation writes a produced tensor into the live fields *)

Lemma never_filled_restore now k : never_filled k → never_filled (restore_cache_on now k).
Proof.
  intros (Hi & Hm & Hpi & Hpm). unfold never_filled, restore_cache_on.
  case_decide; simpl; [done|]. by rewrite Hpi, Hpm.
Qed.

Lemma never_filled_update k : never_filled k → never_filled (update_persistent_cache_on k).
Proof. intros (Hi & Hm & _ & _). by unfold never_filled, update_persistent_cache_on. Qed.

Lemma never_filled_complete_call c a st :
  never_filled (_canvas_cache st) →
  never_filled (_canvas_cache (snd (complete_call c a st))).
Proof.
  intros H.
  destruct (complete_call_cases c a st) as [(i & m & r & _ & _ & ->)|(e & _ & _ & ->)];
    [by apply never_filled_update | done].
Qed.

Lemma never_filled_run_op c o st :
  never_filled (_canvas_cache st) → never_filled (_canvas_cache (run_op c o st)).
Proof.
  intros H.
  destruct o as [now|a|a|a|f now stage status info|now|now msg|n|n]; simpl.
  - unfold __init__. case_match; [by apply never_filled_restore | done].
  - destruct (_processing_lock st) eqn:Hl.
    + by rewrite process_skipped.
    + rewrite process_acquired by done. by apply never_filled_complete_call.
  - destruct (_processing_lock st) eqn:Hl.
    + by rewrite process_skipped.
    + unfold acquire_nonblocking. by rewrite Hl.
  - by apply never_filled_complete_call.
  - exact H.
  - unfold _cleanup_old_websocket_data. by case_decide.
  - unfold handle_canvas_websocket. by case_match.
  - unfold get_input_data. by case_match.
  - unfold clear_input_data. by case_match.
Qed.

Lemma never_filled_run_ops c os st :
  never_filled (_canvas_cache st) → never_filled (_canvas_cache (run_ops c os st)).
Proof.
  revert st. induction os as [|o os IH]; intros st H; simpl; [exact H|].
  apply IH. by apply never_filled_run_op.
Qed.

(** Whatever ran before, a call that finds the lock held is handed
    [{'image': None, 'mask': None}]. *)
Lemma skipped_call_gets_nothing c os a :
  let st := run_ops c os initial_state in
  _processing_lock st = true →
  fst (process_canvas_image c a st) = RetDict None None.
Proof.
  cbv zeta. intros Hl. rewrite process_skipped by done. simpl.
  destruct (never_filled_run_ops c os initial_state) as (-> & -> & _).
  - by unfold never_filled.
  - reflexivity.
Qed.

(** ** The step and the handler on the push channel *)

(** An accepted message is stored under its node id, stamped with the
    receive time, and acknowledged; a falsy node id is refused and nothing is
    stored. *)
Lemma handle_canvas_websocket_cases now msg st :
  (truthy (nodeId msg) = true
   ∧ handle_canvas_websocket now msg st
     = (Ack (nodeId msg),
        receive now (key_of (nodeId msg)) (image msg) (mask msg) st))
  ∨ (truthy (nodeId msg) = false
     ∧ handle_canvas_websocket now msg st = (WsError "nodeId is required", st)).
Proof.
  unfold handle_canvas_websocket.
  destruct (truthy (nodeId msg)); [left | right]; done.
Qed.

(** Once a call has stored its input, the pushed entry of its node is gone,
    whether the decoding then succeeds or raises. *)
Lemma step_pops_entry c a st :
  _processing_lock st = false →
  is_Some (build_input_data c a) →
  _canvas_data_storage (snd (process_canvas_image c a st))
    !! inl (Args.node_id a) = None.
Proof.
  intros Hl [d Hd]. rewrite process_acquired by done.
  pose proof (guarded_region_storage c a (set_lock true st) d Hd) as Hs.
  unfold complete_call.
  destruct (guarded_region c a (set_lock true st)) as [[e|[i m]] st2];
    simpl in *; rewrite storage_finally_release, Hs; apply lookup_delete_eq.
Qed.

(** A call that acquired the lock leaves it free on the success path and
    on the [except] path alike. *)
Lemma acquiring_call_releases c a st :
  _processing_lock st = false →
  _processing_lock (snd (process_canvas_image c a st)) = false.
Proof.
  intros Hl. rewrite process_acquired by done. apply complete_call_lock.
Qed.

(** What an acquiring call that stored its input pops and returns. *)
Lemma call_pops_entry c a st d :
  _processing_lock st = false →
  build_input_data c a = Some d →
  canvas_data_of_call c a st
  = Some (_canvas_data_storage st !! inl (Args.node_id a))
  ∧ fst (process_canvas_image c a st)
    = returned_for c (_canvas_data_storage st !! inl (Args.node_id a))
  ∧ _canvas_data_storage (snd (process_canvas_image c a st))
    = delete (inl (Args.node_id a))
        (<[input_key (Args.node_id a) := Input d]> (_canvas_data_storage st))
  ∧ _processing_lock (snd (process_canvas_image c a st)) = false.
Proof.
  intros Hl Hd. split.
  { unfold canvas_data_of_call, acquire_nonblocking, store_input, bind, lift,
      modify, ret. rewrite Hl, Hd. simpl.
    by rewrite lookup_insert_ne by apply input_key_neq. }
  rewrite process_acquired by done.
  split; [|split; [|apply complete_call_lock]].
  - unfold complete_call, returned_for. rewrite guarded_region_eq, Hd. cbv zeta.
    cbn [_canvas_data_storage set_lock].
    rewrite lookup_insert_ne by apply input_key_neq.
    destruct (_canvas_data_storage st !! inl (Args.node_id a)) as [e|]; [|done].
    destruct (load_value (decode_rgb c) _ _) as [ex|pi]; [done|].
    by destruct (load_value (decode_l c) _ _) as [ex|pm].
  - pose proof (guarded_region_storage c a (set_lock true st) d Hd) as Hs.
    unfold complete_call.
    destruct (guarded_region c a (set_lock true st)) as [[e|[i m]] st2];
      simpl in *; by rewrite storage_finally_release.
Qed.

Lemma handler_stores_str_id now id img msk st :
  id ≠ "" →
  handle_canvas_websocket now (WsMessage (JStr id) img msk) st
  = (Ack (JStr id), receive now (inl id) img msk st).
Proof.
  intros Hid. unfold handle_canvas_websocket. simpl.
  apply String.eqb_neq in Hid. by rewrite Hid.
Qed.

(** C6. Pop-once on the program.  After the WebSocket handler has accepted
    messages for a node id (a non-empty string), the next call of the step
    for that node that reaches its pop takes the snapshot of the last message
    (last write wins) and computes its outputs from it; the entry is then
    gone: the call that follows pops nothing and returns the blanks; and
    after a new accepted message the next call pops the new snapshot. *)
Theorem pushed_snapshot_taken_once (c : codec) (a : Args.t) (t1 t2 t3 : Z)
    (i1 m1 i2 m2 i3 m3 : jvalue) (st : state) :
  Args.node_id a ≠ "" →
  _processing_lock st = false →
  is_Some (build_input_data c a) →
  let id := JStr (Args.node_id a) in
  let first := handle_canvas_websocket t1 (WsMessage id i1 m1) st in
  let second := handle_canvas_websocket t2 (WsMessage id i2 m2) (snd first) in
  let call1 := process_canvas_image c a (snd second) in
  let call2 := process_canvas_image c a (snd call1) in
  let third := handle_canvas_websocket t3 (WsMessage id i3 m3) (snd call2) in
  fst first = Ack id ∧ fst second = Ack id ∧ fst third = Ack id
  ∧ canvas_data_of_call c a (snd second)
    = Some (Some (Canvas (Snapshot.Make i2 m2 t2)))
  ∧ fst call1 = returned_for c (Some (Canvas (Snapshot.Make i2 m2 t2)))
  ∧ _canvas_data_storage (snd call1) !! inl (Args.node_id a) = None
  ∧ canvas_data_of_call c a (snd call1) = Some None
  ∧ fst call2 = RetTuple (Some blank_image) (Some blank_mask)
  ∧ canvas_data_of_call c a (snd third)
    = Some (Some (Canvas (Snapshot.Make i3 m3 t3))).
Proof.
  intros Hid Hl [d Hd]. cbv zeta.
  rewrite !handler_stores_str_id by done. cbn [fst snd].
  split; [done|]. split; [done|]. split; [done|].
  set (st2 := receive t2 (inl (Args.node_id a)) i2 m2
                (receive t1 (inl (Args.node_id a)) i1 m1 st)).
  assert (Hin2 : _canvas_data_storage st2 !! inl (Args.node_id a)
                 = Some (Canvas (Snapshot.Make i2 m2 t2))).
  { unfold st2, receive. simpl. apply lookup_insert_eq. }
  destruct (call_pops_entry c a st2 d) as (Hp1 & Hr1 & Hs1 & Hl1); [done..|].
  rewrite Hin2 in Hp1, Hr1.
  split; [exact Hp1|]. split; [exact Hr1|].
  assert (Hout1 : _canvas_data_storage (snd (process_canvas_image c a st2))
                  !! inl (Args.node_id a) = None).
  { rewrite Hs1. apply lookup_delete_eq. }
  split; [exact Hout1|].
  destruct (call_pops_entry c a (snd (process_canvas_image c a st2)) d)
    as (Hp2 & Hr2 & Hs2 & Hl2); [done..|].
  rewrite Hout1 in Hp2, Hr2.
  split; [exact Hp2|]. split; [exact Hr2|].
  set (st3 := receive t3 (inl (Args.node_id a)) i3 m3 _).
  destruct (call_pops_entry c a st3 d) as (Hp3 & _); [exact Hl2 | done |].
  rewrite Hp3. unfold st3, receive. simpl. by rewrite lookup_insert_eq.
Qed.

Lemma pushed_snapshot_taken_once_witness :
  let a := bare_call "n1" in
  let id := JStr "n1" in
  let first := handle_canvas_websocket 1 (WsMessage id (JStr "x,old") JNull)
                 initial_state in
  let second := handle_canvas_websocket 2
                  (WsMessage id (JStr "data:image/png;base64,AAAA") JNull)
                  (snd first) in
  let call1 := process_canvas_image sample_codec a (snd second) in
  let call2 := process_canvas_image sample_codec a (snd call1) in
  let third := handle_canvas_websocket 3 (WsMessage id JNull (JStr "m,AAAA"))
                 (snd call2) in
  fst first = Ack id ∧ fst second = Ack id ∧ fst third = Ack id
  ∧ canvas_data_of_call sample_codec a (snd second)
    = Some (Some (Canvas (Snapshot.Make (JStr "data:image/png;base64,AAAA")
                            JNull 2)))
  ∧ fst call1
    = returned_for sample_codec
        (Some (Canvas (Snapshot.Make (JStr "data:image/png;base64,AAAA") JNull 2)))
  ∧ _canvas_data_storage (snd call1) !! inl "n1" = None
  ∧ canvas_data_of_call sample_codec a (snd call1) = Some None
  ∧ fst call2 = RetTuple (Some blank_image) (Some blank_mask)
  ∧ canvas_data_of_call sample_codec a (snd third)
    = Some (Some (Canvas (Snapshot.Make JNull (JStr "m,AAAA") 3))).
Proof.
  apply (pushed_snapshot_taken_once sample_codec (bare_call "n1") 1 2 3
           (JStr "x,old") JNull (JStr "data:image/png;base64,AAAA") JNull
           JNull (JStr "m,AAAA") initial_state);
    [discriminate | reflexivity | by eexists].
Defined.

(** ** Scenarios on the code *)

(** C1. A successful run of the step is not committed into the live fields.
    From the initial state a call for node "n1" acquires the guard, raises
    nothing and returns the two blank tensors; the live [image] and [mask]
    are [None] afterwards, and a later call that finds the guard held is
    handed [(None, None)], not the pair that was produced. *)
Theorem produced_outputs_not_committed :
  let first := process_canvas_image rejecting_codec (bare_call "n1") initial_state in
  let busy := run_op rejecting_codec (OpEnter (bare_call "n1")) (snd first) in
  fst first = RetTuple (Some blank_image) (Some blank_mask)
  ∧ get_cached_data (snd first) = (None, None)
  ∧ _processing_lock busy = true
  ∧ fst (process_canvas_image rejecting_codec (bare_call "n1") busy)
    = RetDict None None.
Proof. repeat split; reflexivity. Qed.

(** C2. The skipped path releases a guard it does not hold.  Call 1 takes
    the guard and is still inside the guarded region; call 2 finds it held,
    returns the cached dictionary, and its [finally] block releases the
    guard of call 1; call 3 then acquires the guard and goes through the
    guarded region while call 1 is still in flight. *)
Theorem skipped_call_releases_guard (c : codec) (a1 a2 a3 : Args.t) :
  let st1 := run_op c (OpEnter a1) initial_state in
  let call2 := process_canvas_image c a2 st1 in
  let call3 := process_canvas_image c a3 (snd call2) in
  _processing_lock st1 = true
  ∧ fst call2 = RetDict None None
  ∧ _processing_lock (snd call2) = false
  ∧ call3 = complete_call c a3 (set_lock true (snd call2)).
Proof.
  cbv zeta. split; [reflexivity|].
  rewrite (process_skipped c a2) by reflexivity.
  split; [reflexivity|]. split; [reflexivity|].
  by rewrite process_acquired.
Qed.

(** C3. An undecodable pushed image makes the step return [(None, None)].
    The pushed entry of node "n1" carries the text "garbage", which has no
    comma, so [split(',')[1]] raises inside the guarded region; the call
    does not propagate the exception, but what it returns is the pair of two
    [None], not the blank image and mask. *)
Theorem undecodable_returns_none (c : codec) :
  let st := receive 0 (inl "n1") (JStr "garbage") JNull initial_state in
  fst (guarded_region c (bare_call "n1") (set_lock true st)) = inl IndexError
  ∧ fst (process_canvas_image c (bare_call "n1") st) = RetTuple None None.
Proof. split; reflexivity. Qed.

(** The same for every raise of the guarded region. *)
Lemma raise_returns_none c a st e :
  _processing_lock st = false →
  fst (guarded_region c a (set_lock true st)) = inl e →
  fst (process_canvas_image c a st) = RetTuple None None.
Proof.
  intros Hl He. rewrite process_acquired by done.
  destruct (complete_call_cases c a (set_lock true st))
    as [(i & m & r & _ & Hr & _)|(e' & Hret & _ & _)]; [congruence | exact Hret].
Qed.

(** The cleanup never looks at the dictionary the pushed entries are in. *)
Lemma cleanup_storage now st :
  _canvas_data_storage (_cleanup_old_websocket_data now st)
  = _canvas_data_storage st.
Proof. unfold _cleanup_old_websocket_data. by case_decide. Qed.

(** C5. A stale pushed entry is still handed out.  An entry received at
    time [ts] is returned by the pop at any later time [now], also after
    [_cleanup_old_websocket_data] has run at [now] and however much [now]
    exceeds [ts] + 5 minutes: the cleanup walks [_websocket_data], the
    entries are in [_canvas_data_storage]. *)
Theorem stale_entry_still_taken (now ts : Z) (key : pykey) (img msk : jvalue)
    (st : state) :
  fst (pop_storage key (_cleanup_old_websocket_data now (receive ts key img msk st)))
  = Some (Canvas (Snapshot.Make img msk ts)).
Proof.
  unfold pop_storage. simpl. rewrite cleanup_storage.
  apply pop_receive.
Qed.

Example stale_entry_one_hour :
  let st := receive 0 (inl "n1") (JStr "data:image/png;base64,AAAA") JNull
              initial_state in
  let st' := _cleanup_old_websocket_data 3600000 st in
  (3600000 - 0 >? cleanup_threshold) = true
  ∧ fst (pop_storage (inl "n1") st')
    = Some (Canvas (Snapshot.Make (JStr "data:image/png;base64,AAAA") JNull 0)).
Proof. split; reflexivity. Qed.

(** C7. Execution reset holds on the code, execution continuity does not.
    After [restore_cache] at execution id 1000 and a successful run of the
    step that returns the two blank tensors, a [restore_cache] at the
    different id 2000 leaves the live fields empty and records 2000; a
    [restore_cache] at the same id 1000, once or twice, leaves the live
    fields [None] as well, not the tensors the run produced. *)
Theorem continuity_restores_nothing :
  let st1 := restore_cache 1000 initial_state in
  let run := process_canvas_image rejecting_codec (bare_call "n1") st1 in
  let other := restore_cache 2000 (snd run) in
  let same := restore_cache 1000 (snd run) in
  fst run = RetTuple (Some blank_image) (Some blank_mask)
  ∧ get_cached_data other = (None, None)
  ∧ Cache.last_execution_id (_canvas_cache other) = Some 2000
  ∧ get_cached_data same = (None, None)
  ∧ get_cached_data (restore_cache 1000 same) = (None, None).
Proof. repeat split; reflexivity. Qed.

(** ** What the step does between the acquisition and the pop *)





(** * Further properties of the code *)

(** ** NodeInputStore: the clear route and the step *)

(** X1. [clear_input_data] always answers success; after it the poll for the
    node finds nothing, clearing again changes nothing, and every other
    entry of the dictionary is what it was. *)
Theorem clear_input_data_idempotent (node_id : string) (st : state) :
  let st' := snd (clear_input_data node_id st) in
  fst (clear_input_data node_id st) = true
  ∧ fst (get_input_data node_id st') = NoInput
  ∧ snd (clear_input_data node_id st') = st'
  ∧ ∀ k, k ≠ input_key node_id →
         _canvas_data_storage st' !! k = _canvas_data_storage st !! k.
Proof.
  cbv zeta. unfold clear_input_data, get_input_data.
  destruct (_canvas_data_storage st !! input_key node_id) as [e|] eqn:E; simpl.
  - rewrite lookup_delete_eq. repeat split; try done.
    intros k Hk. by rewrite lookup_delete_ne.
  - rewrite E. done.
Qed.

(** X2. A call that acquires the lock and can encode its input leaves that
    input for the poll of its node, also when the decoding of the pushed
    entry raises afterwards. *)
Theorem step_then_poll (c : codec) (a : Args.t) (st : state) (d : InputData.t) :
  _processing_lock st = false →
  build_input_data c a = Some d →
  fst (get_input_data (Args.node_id a) (snd (process_canvas_image c a st)))
  = HasInput (Input d).
Proof.
  intros Hl Hd. rewrite process_acquired by done.
  pose proof (guarded_region_storage c a (set_lock true st) d Hd) as Hs.
  unfold complete_call, get_input_data.
  destruct (guarded_region c a (set_lock true st)) as [[e|[i m]] st2];
    simpl in *; rewrite storage_finally_release, Hs;
    rewrite lookup_delete_ne by (intros H; symmetry in H; by apply input_key_neq in H);
    by rewrite lookup_insert_eq.
Qed.

Lemma step_then_poll_witness :
  fst (get_input_data "n1"
         (snd (process_canvas_image sample_codec
                 (Args.Make true "n1" (ArgTensor [blank_image]) ArgNone)
                 initial_state)))
  = HasInput (Input (InputData.Make (Some "data:image/png;base64,AAAA")
                       (Some 1%N) (Some 1%N) None None true)).
Proof.
  apply (step_then_poll sample_codec
           (Args.Make true "n1" (ArgTensor [blank_image]) ArgNone)
           initial_state); reflexivity.
Defined.

(** X3. The step reads and writes two keys of the dictionary only, its node id
    and ["<node_id>_input"]; every other entry, [_websocket_data] and the
    flow table are left alone. *)
Theorem step_storage_frame (c : codec) (a : Args.t) (st : state) (k : pykey) :
  k ≠ input_key (Args.node_id a) →
  k ≠ inl (Args.node_id a) →
  let st' := snd (process_canvas_image c a st) in
  _canvas_data_storage st' !! k = _canvas_data_storage st !! k
  ∧ _websocket_data st' = _websocket_data st
  ∧ Cache.data_flow_status (_canvas_cache st')
    = Cache.data_flow_status (_canvas_cache st).
Proof.
  intros Hk1 Hk2. cbv zeta.
  destruct (_processing_lock st) eqn:Hl.
  { by rewrite process_skipped. }
  rewrite process_acquired by done. unfold complete_call.
  pose proof (guarded_region_frame c a (set_lock true st)) as (_ & Hw & Hc).
  pose proof (guarded_region_storage c a (set_lock true st)) as Hs.
  pose proof (guarded_region_input_fails c a (set_lock true st)) as Hf.
  destruct (build_input_data c a) as [d|].
  - specialize (Hs d eq_refl).
    assert (Hfin : ∀ s, _websocket_data (finally_release s) = _websocket_data s).
    { intros s. unfold finally_release. by destruct (_processing_lock s). }
    destruct (guarded_region c a (set_lock true st)) as [[e|[i m]] st2];
      simpl in *; rewrite storage_finally_release, cache_finally_release, Hfin,
        Hs, Hc, Hw; rewrite lookup_delete_ne, lookup_insert_ne by done; done.
  - by rewrite (Hf eq_refl).
Qed.

Lemma step_storage_frame_witness :
  let st := receive 5 (inl "n2") (JStr "x,AAAA") JNull initial_state in
  let st' := snd (process_canvas_image sample_codec (bare_call "n1") st) in
  _canvas_data_storage st' !! inl "n2" = _canvas_data_storage st !! inl "n2"
  ∧ _websocket_data st' = _websocket_data st
  ∧ Cache.data_flow_status (_canvas_cache st')
    = Cache.data_flow_status (_canvas_cache st).
Proof.
  apply (step_storage_frame sample_codec (bare_call "n1")
           (receive 5 (inl "n2") (JStr "x,AAAA") JNull initial_state)
           (inl "n2")); discriminate.
Defined.

(** ** What a call of the step returns *)

(** X4. The dictionary of the cache is returned exactly when the lock was held;
    otherwise a tuple is returned whose two components are both tensors (the
    region did not raise) or both [None] (it raised): never one of each. *)
Theorem step_returns_both_or_neither (c : codec) (a : Args.t) (st : state) :
  match fst (process_canvas_image c a st) with
  | RetDict i m => _processing_lock st = true ∧ (i, m) = get_cached_data st
  | RetTuple (Some _) (Some _) =>
      _processing_lock st = false
      ∧ ∃ r, fst (guarded_region c a (set_lock true st)) = inr r
  | RetTuple None None =>
      _processing_lock st = false
      ∧ ∃ e, fst (guarded_region c a (set_lock true st)) = inl e
  | RetTuple _ _ => False
  end.
Proof.
  destruct (_processing_lock st) eqn:Hl.
  - by rewrite process_skipped.
  - rewrite process_acquired by done.
    destruct (complete_call_cases c a (set_lock true st))
      as [(i & m & r & -> & Hr & _)|(e & -> & He & _)]; eauto.
Qed.

(** X5. Whatever state a call starts from and whichever path it takes, the lock
    is free when it returns. *)
Theorem step_leaves_lock_free (c : codec) (a : Args.t) (st : state) :
  _processing_lock (snd (process_canvas_image c a st)) = false.
Proof.
  destruct (_processing_lock st) eqn:Hl.
  - by rewrite process_skipped.
  - rewrite process_acquired by done. apply complete_call_lock.
Qed.

(** ** Data URIs *)

Lemma split_sep_free sep s : sep_free sep s = true → split sep s = [s].
Proof.
  induction s as [|ch s IH]; simpl; [done|].
  intros [Hch Hs]%andb_prop. apply negb_true_iff in Hch. rewrite Hch.
  by rewrite (IH Hs).
Qed.

Lemma split_app_sep sep p r :
  sep_free sep p = true → split sep (p +:+ String sep r) = p :: split sep r.
Proof.
  induction p as [|ch p IH]; simpl.
  - intros _. by rewrite Ascii.eqb_refl.
  - intros [Hch Hp]%andb_prop. apply negb_true_iff in Hch. rewrite Hch.
    by rewrite (IH Hp).
Qed.

(** X6. [v.split(',')[1]] takes the payload of a data URI: with a header free of
    commas, the result is the text between the first comma and the next one
    (the whole rest when that has no comma); a text with no comma at all
    raises [IndexError]. *)
Theorem split_payload_data_uri (header payload rest : string) :
  sep_free "," header = true →
  sep_free "," payload = true →
  split_payload (JStr (header +:+ "," +:+ payload)) = inr payload
  ∧ split_payload (JStr (header +:+ "," +:+ payload +:+ "," +:+ rest))
    = inr payload
  ∧ split_payload (JStr header) = inl IndexError.
Proof.
  intros Hh Hp. unfold split_payload. repeat split.
  - change ("," +:+ payload) with (String "," payload).
    by rewrite split_app_sep, split_sep_free.
  - change ("," +:+ payload +:+ "," +:+ rest)
      with (String "," (payload +:+ String "," rest)).
    by rewrite split_app_sep, split_app_sep.
  - by rewrite split_sep_free.
Qed.

Lemma split_payload_data_uri_witness :
  split_payload (JStr ("data:image/png;base64" +:+ "," +:+ "AAAA")) = inr "AAAA"
  ∧ split_payload (JStr ("data:image/png;base64" +:+ "," +:+ "AAAA" +:+ "," +:+ "x"))
    = inr "AAAA"
  ∧ split_payload (JStr "data:image/png;base64") = inl IndexError.
Proof.
  apply (split_payload_data_uri "data:image/png;base64" "AAAA" "x"); reflexivity.
Defined.

(** ** From the push channel to the outputs *)

Lemma split_payload_truthy v payload :
  split_payload v = inr payload → truthy v = true.
Proof.
  destruct v as [|b|z|s]; simpl; try done.
  destruct s; [done | reflexivity].
Qed.

(** X7. A pushed image is what the next call for that node returns: after the
    handler accepted a message for node [id] whose image text splits to a
    payload the codec decodes, and whose mask is falsy, a call that acquires
    the lock and can encode its own input tensors (so that it reaches the
    pop) returns the decoded pixels as a tensor of shape (1, H, W, 3)
    together with the blank mask, and the entry is consumed. *)
Theorem pushed_image_is_returned (c : codec) (now : Z) (a : Args.t)
    (img msk : jvalue) (payload : string) (pil : pil_image) (st : state) :
  Args.node_id a ≠ "" →
  _processing_lock st = false →
  is_Some (build_input_data c a) →
  split_payload img = inr payload →
  decode_rgb c payload = Some pil →
  truthy msk = false →
  let pushed := handle_canvas_websocket now
                  (WsMessage (JStr (Args.node_id a)) img msk) st in
  let call := process_canvas_image c a (snd pushed) in
  fst pushed = Ack (JStr (Args.node_id a))
  ∧ fst call
    = RetTuple (Some (from_numpy [1%N; height pil; width pil; 3%N] (pixels pil)))
               (Some blank_mask)
  ∧ _canvas_data_storage (snd call) !! inl (Args.node_id a) = None.
Proof.
  intros Hid Hl [d Hd] Hsplit Hdec Hmsk. cbv zeta.
  pose proof (split_payload_truthy _ _ Hsplit) as Himg.
  unfold handle_canvas_websocket. simpl.
  assert (Ht : negb (String.eqb (Args.node_id a) "") = true).
  { apply negb_true_iff, String.eqb_neq. exact Hid. }
  rewrite Ht. simpl. split; [done|].
  rewrite process_acquired by done. unfold complete_call.
  rewrite guarded_region_eq, Hd. cbv zeta. simpl.
  rewrite lookup_insert_ne by apply input_key_neq.
  rewrite lookup_insert_eq. simpl.
  unfold load_value. rewrite Himg, Hmsk, Hsplit, Hdec. simpl.
  split; [done|]. apply lookup_delete_eq.
Qed.

Lemma pushed_image_is_returned_witness :
  let pushed := handle_canvas_websocket 7
                  (WsMessage (JStr "n1") (JStr "data:image/png;base64,AAAA") JNull)
                  initial_state in
  let call := process_canvas_image sample_codec (bare_call "n1") (snd pushed) in
  fst pushed = Ack (JStr "n1")
  ∧ fst call = RetTuple (Some (from_numpy [1%N; 1%N; 1%N; 3%N] [255%N; 0%N; 0%N]))
                        (Some blank_mask)
  ∧ _canvas_data_storage (snd call) !! inl "n1" = None.
Proof.
  apply (pushed_image_is_returned sample_codec 7 (bare_call "n1")
           (JStr "data:image/png;base64,AAAA") JNull "AAAA"
           (PilImage 1 1 [255%N; 0%N; 0%N]) initial_state);
    [discriminate | reflexivity | by eexists | reflexivity | reflexivity
    | reflexivity].
Defined.

(** X8. The input snapshot of node [id] sits under the key ["<id>_input"], which
    is also the key a node named ["<id>_input"] pops: a call for that node
    takes the snapshot away as if it were a pushed entry, finds neither
    ['image'] nor ['mask'] in it and returns the blanks; the poll for [id]
    then finds nothing. *)
Theorem input_suffix_node_takes_input (c : codec) (a a' : Args.t) (st : state) :
  _processing_lock st = false →
  is_Some (build_input_data c a) →
  is_Some (build_input_data c a') →
  Args.node_id a' = Args.node_id a +:+ "_input" →
  let st1 := snd (process_canvas_image c a st) in
  let call := process_canvas_image c a' st1 in
  is_Some (_canvas_data_storage st1 !! input_key (Args.node_id a))
  ∧ fst call = RetTuple (Some blank_image) (Some blank_mask)
  ∧ fst (get_input_data (Args.node_id a) (snd call)) = NoInput.
Proof.
  intros Hl [d Hd] [d' Hd'] Hid. cbv zeta.
  assert (Hst1 : _canvas_data_storage (snd (process_canvas_image c a st))
                 = delete (inl (Args.node_id a))
                     (<[input_key (Args.node_id a) := Input d]>
                        (_canvas_data_storage st))).
  { rewrite process_acquired by done.
    pose proof (guarded_region_storage c a (set_lock true st) d Hd) as Hs.
    unfold complete_call.
    destruct (guarded_region c a (set_lock true st)) as [[e|[i m]] st2];
      simpl in *; by rewrite storage_finally_release. }
  assert (Hne : inl (Args.node_id a) ≠ input_key (Args.node_id a)).
  { intros H. symmetry in H. by apply input_key_neq in H. }
  assert (Hin : _canvas_data_storage (snd (process_canvas_image c a st))
                !! input_key (Args.node_id a) = Some (Input d)).
  { rewrite Hst1, lookup_delete_ne by done. apply lookup_insert_eq. }
  split; [by rewrite Hin|].
  assert (Hl1 : _processing_lock (snd (process_canvas_image c a st)) = false).
  { rewrite process_acquired by done. apply complete_call_lock. }
  rewrite (process_acquired c a') by done. unfold complete_call.
  rewrite guarded_region_eq, Hd'. cbv zeta.
  cbn [_canvas_data_storage set_lock]. rewrite Hid.
  fold (input_key (Args.node_id a)).
  rewrite lookup_insert_ne by apply input_key_neq.
  rewrite Hin. simpl. split; [done|].
  unfold get_input_data. simpl. by rewrite lookup_delete_eq.
Qed.

Lemma input_suffix_node_takes_input_witness :
  let st1 := snd (process_canvas_image sample_codec (bare_call "n1") initial_state) in
  let call := process_canvas_image sample_codec (bare_call "n1_input") st1 in
  is_Some (_canvas_data_storage st1 !! input_key "n1")
  ∧ fst call = RetTuple (Some blank_image) (Some blank_mask)
  ∧ fst (get_input_data "n1" (snd call)) = NoInput.
Proof.
  apply (input_suffix_node_takes_input sample_codec (bare_call "n1")
           (bare_call "n1_input") initial_state);
    [reflexivity | by eexists | by eexists | reflexivity].
Defined.

(** ** The stored input *)

Lemma encode_batch_length c frames imgs :
  encode_batch c frames = Some imgs → length imgs = length frames.
Proof.
  revert imgs. induction frames as [|f frames IH]; simpl; intros imgs H.
  - by injection H as <-.
  - destruct (encode_rgb c f) as [img|]; [|done].
    destruct (encode_batch c frames) as [rest|]; [|done].
    injection H as <-. simpl. by rewrite (IH rest).
Qed.

(** X9. The input dictionary holds a single image (with its width and height)
    exactly for a batch of one frame and the list ['input_images_batch'], of
    the length of the batch, for any other batch, never both; without a
    tensor it holds neither.  ['input_mask'] is present exactly for a tensor
    mask, and ['fit_on_add'] is the argument. *)
Theorem build_input_data_shape (c : codec) (a : Args.t) (d : InputData.t) :
  build_input_data c a = Some d →
  InputData.fit_on_add d = Args.fit_on_add a
  ∧ (is_Some (InputData.input_mask d) ↔ ∃ m, Args.input_mask a = ArgTensor m)
  ∧ match Args.input_image a with
    | ArgTensor frames =>
        if decide (length frames = 1%nat) then
          is_Some (InputData.input_image d)
          ∧ is_Some (InputData.input_image_width d)
          ∧ is_Some (InputData.input_image_height d)
          ∧ InputData.input_images_batch d = None
        else
          InputData.input_image d = None
          ∧ InputData.input_image_width d = None
          ∧ InputData.input_image_height d = None
          ∧ ∃ imgs, InputData.input_images_batch d = Some imgs
                    ∧ length imgs = length frames
    | _ =>
        InputData.input_image d = None
        ∧ InputData.input_image_width d = None
        ∧ InputData.input_image_height d = None
        ∧ InputData.input_images_batch d = None
    end.
Proof.
  unfold build_input_data. intros H.
  assert (Hmask : ∀ x : option string,
            match Args.input_mask a with
            | ArgTensor m => match encode_l c m with
                             | Some s => Some (Some s)
                             | None => None
                             end
            | _ => Some None
            end = Some x →
            (is_Some x ↔ ∃ m, Args.input_mask a = ArgTensor m)).
  { intros x Hx. destruct (Args.input_mask a) as [| |m].
    - injection Hx as <-. split; [by intros [? ?] | by intros [? ?]].
    - injection Hx as <-. split; [by intros [? ?] | by intros [? ?]].
    - destruct (encode_l c m); [|done]. injection Hx as <-.
      split; eauto. }
  destruct (Args.input_image a) as [| |frames].
  - destruct (match Args.input_mask a with ArgTensor _ => _ | _ => _ end)
      as [x|] eqn:Ex; [|done].
    injection H as <-. simpl. split; [done|]. split; [by apply Hmask|done].
  - destruct (match Args.input_mask a with ArgTensor _ => _ | _ => _ end)
      as [x|] eqn:Ex; [|done].
    injection H as <-. simpl. split; [done|]. split; [by apply Hmask|done].
  - destruct (encode_batch c frames) as [imgs|] eqn:Eb; [|done].
    pose proof (encode_batch_length c frames imgs Eb) as Hlen.
    destruct (match Args.input_mask a with ArgTensor _ => _ | _ => _ end)
      as [x|] eqn:Ex.
    2:{ destruct imgs as [|[[? ?] ?] [|? ?]]; done. }
    pose proof (Hmask x eq_refl) as Hx.
    destruct imgs as [|[[data w] h] [|img2 imgs]]; injection H as <-; simpl in *;
      (split; [done|]); (split; [exact Hx|]);
      case_decide; try lia; eauto 10.
Qed.

Lemma build_input_data_shape_witness :
  let a := Args.Make true "n1" (ArgTensor [blank_image; blank_image])
             (ArgTensor blank_mask) in
  let d := InputData.Make None None None
             (Some [("data:image/png;base64,AAAA", 1%N, 1%N);
                    ("data:image/png;base64,AAAA", 1%N, 1%N)])
             (Some "AAAA") true in
  InputData.fit_on_add d = Args.fit_on_add a
  ∧ (is_Some (InputData.input_mask d) ↔ ∃ m, Args.input_mask a = ArgTensor m)
  ∧ InputData.input_image d = None
  ∧ InputData.input_image_width d = None
  ∧ InputData.input_image_height d = None
  ∧ ∃ imgs, InputData.input_images_batch d = Some imgs
            ∧ length imgs = 2%nat.
Proof.
  exact (build_input_data_shape sample_codec
           (Args.Make true "n1" (ArgTensor [blank_image; blank_image])
              (ArgTensor blank_mask))
           (InputData.Make None None None
              (Some [("data:image/png;base64,AAAA", 1%N, 1%N);
                     ("data:image/png;base64,AAAA", 1%N, 1%N)])
              (Some "AAAA") true)
           eq_refl).
Defined.

(** ** The cleanup of [_websocket_data] *)

Lemma cleanup_all_int now st :
  map_Forall (fun k _ => is_int_key k = true) (_websocket_data st) →
  _websocket_data (_cleanup_old_websocket_data now st)
  = filter (keeps now) (_websocket_data st).
Proof. intros H. unfold _cleanup_old_websocket_data. by case_decide. Qed.

(** X10. When every key is an [int], the cleanup keeps exactly the entries whose
    key is not negative and whose timestamp is at most 300 seconds old, and
    it removes nothing else. *)
Theorem cleanup_keeps_exactly_fresh (now : Z) (st : state) (k : pykey)
    (v : Snapshot.t) :
  map_Forall (fun k _ => is_int_key k = true) (_websocket_data st) →
  _websocket_data (_cleanup_old_websocket_data now st) !! k = Some v
  ↔ _websocket_data st !! k = Some v
    ∧ ∃ z, k = inr z ∧ 0 ≤ z ∧ now - Snapshot.timestamp v ≤ 300 * 1000.
Proof.
  intros Hint. rewrite cleanup_all_int by done.
  rewrite map_lookup_filter_Some. unfold keeps, to_remove, cleanup_threshold.
  simpl. split.
  - intros [Hk Hkeep]. split; [done|].
    destruct k as [s|z].
    + specialize (Hint _ _ Hk). done.
    + exists z. apply orb_false_iff in Hkeep as [H1 H2]. split; [done|]. lia.
  - intros [Hk (z & -> & Hz & Hage)]. split; [done|].
    apply orb_false_iff. split; lia.
Qed.

Lemma cleanup_keeps_exactly_fresh_witness :
  let st := set_websocket_data
              (<[inr 3 := Snapshot.Make JNull JNull 1000]>
                 (<[inr (-1) := Snapshot.Make JNull JNull 1000]> ∅))
              initial_state in
  _websocket_data (_cleanup_old_websocket_data 2000 st) !! inr 3
  = Some (Snapshot.Make JNull JNull 1000)
  ↔ _websocket_data st !! inr 3 = Some (Snapshot.Make JNull JNull 1000)
    ∧ ∃ z, @inr string Z 3 = inr z ∧ 0 ≤ z
           ∧ 2000 - Snapshot.timestamp (Snapshot.Make JNull JNull 1000) ≤ 300 * 1000.
Proof.
  apply (cleanup_keeps_exactly_fresh 2000
           (set_websocket_data
              (<[inr 3 := Snapshot.Make JNull JNull 1000]>
                 (<[inr (-1) := Snapshot.Make JNull JNull 1000]> ∅))
              initial_state)).
  simpl. intros k v Hk.
  destruct k as [s|z]; [|reflexivity].
  rewrite lookup_insert_ne in Hk by discriminate.
  rewrite lookup_insert_ne in Hk by discriminate.
  rewrite lookup_empty in Hk. discriminate.
Defined.

(** X11. One [str] key is enough to switch the cleanup off: the comparison
    [node_id < 0] raises before anything is deleted, the [except] swallows
    it, and no entry is removed, however old or negative. *)
Theorem cleanup_disabled_by_str_key (now : Z) (st : state) (s : string)
    (v : Snapshot.t) :
  _websocket_data st !! inl s = Some v →
  _cleanup_old_websocket_data now st = st.
Proof.
  intros Hs. unfold _cleanup_old_websocket_data.
  case_decide as H; [|done].
  by specialize (H _ _ Hs).
Qed.

Lemma cleanup_disabled_by_str_key_witness :
  let st := set_websocket_data
              (<[inl "n1" := Snapshot.Make JNull JNull 0]>
                 (<[inr (-1) := Snapshot.Make JNull JNull 0]> ∅))
              initial_state in
  _cleanup_old_websocket_data 999999999 st = st.
Proof.
  apply (cleanup_disabled_by_str_key 999999999 _ "n1" (Snapshot.Make JNull JNull 0)).
  reflexivity.
Defined.

(** X12. Running the cleanup again later gives what one run at the later time
    gives (so a second run at the same time changes nothing), and no run
    touches the lock, the cache or [_canvas_data_storage]. *)
Theorem cleanup_twice (now1 now2 : Z) (st : state) :
  now1 ≤ now2 →
  _cleanup_old_websocket_data now2 (_cleanup_old_websocket_data now1 st)
  = _cleanup_old_websocket_data now2 st
  ∧ _processing_lock (_cleanup_old_websocket_data now1 st) = _processing_lock st
  ∧ _canvas_cache (_cleanup_old_websocket_data now1 st) = _canvas_cache st
  ∧ _canvas_data_storage (_cleanup_old_websocket_data now1 st)
    = _canvas_data_storage st.
Proof.
  intros Hle. split.
  2:{ unfold _cleanup_old_websocket_data. by case_decide. }
  unfold _cleanup_old_websocket_data at 2.
  case_decide as Hint; [|done].
  unfold _cleanup_old_websocket_data. simpl.
  rewrite decide_True.
  2:{ intros k v [Hk _]%map_lookup_filter_Some. by apply (Hint k v). }
  rewrite decide_True by done.
  unfold set_websocket_data. simpl. f_equal.
  apply map_eq. intros k. apply option_eq. intros v.
  rewrite !map_lookup_filter_Some. unfold keeps, to_remove, cleanup_threshold.
  simpl. split.
  - intros [[Hk _] Hkeep]. done.
  - intros [Hk Hkeep]. split; [|done]. split; [done|].
    destruct k as [s|z]; [done|].
    apply orb_false_iff in Hkeep as [H1 H2]. apply orb_false_iff. split; lia.
Qed.

Lemma cleanup_twice_witness :
  let st := set_websocket_data
              (<[inr 3 := Snapshot.Make JNull JNull 1000]> ∅) initial_state in
  _cleanup_old_websocket_data 400000 (_cleanup_old_websocket_data 2000 st)
  = _cleanup_old_websocket_data 400000 st
  ∧ _processing_lock (_cleanup_old_websocket_data 2000 st) = _processing_lock st
  ∧ _canvas_cache (_cleanup_old_websocket_data 2000 st) = _canvas_cache st
  ∧ _canvas_data_storage (_cleanup_old_websocket_data 2000 st)
    = _canvas_data_storage st.
Proof.
  apply (cleanup_twice 2000 400000). lia.
Defined.

(** ** The flow table *)

(** X13. The table keeps the last record of each flow id: a query by a
    (non-empty) flow id answers the record tracked last for it, the records
    of the other flow ids are what they were, and tracking touches neither
    the live fields nor the shadow copy nor the stores. *)
Theorem track_then_query (f f' : string) (t1 t2 : Z)
    (stage1 status1 stage2 status2 : string) (info1 info2 : option string)
    (st : state) :
  f ≠ "" → f' ≠ "" → f' ≠ f →
  let st2 := track_data_flow f t2 stage2 status2 info2
               (track_data_flow f t1 stage1 status1 info1 st) in
  get_flow_status (Some f) st2
  = inl (Some (FlowStatus.Make t2 stage2 status2 info2))
  ∧ get_flow_status (Some f') st2 = get_flow_status (Some f') st
  ∧ get_cached_data st2 = get_cached_data st
  ∧ Cache.persistent_cache (_canvas_cache st2)
    = Cache.persistent_cache (_canvas_cache st)
  ∧ _canvas_data_storage st2 = _canvas_data_storage st.
Proof.
  intros Hf Hf' Hne. cbv zeta. unfold get_flow_status, track_data_flow. simpl.
  apply String.eqb_neq in Hf, Hf'. rewrite Hf, Hf'. simpl.
  rewrite lookup_insert_eq, !lookup_insert_ne by done. done.
Qed.

Lemma track_then_query_witness :
  let st2 := track_data_flow "f1" 2 "done" "ok" None
               (track_data_flow "f1" 1 "start" "ok" (Some "x") initial_state) in
  get_flow_status (Some "f1") st2 = inl (Some (FlowStatus.Make 2 "done" "ok" None))
  ∧ get_flow_status (Some "f2") st2 = get_flow_status (Some "f2") initial_state
  ∧ get_cached_data st2 = get_cached_data initial_state
  ∧ Cache.persistent_cache (_canvas_cache st2)
    = Cache.persistent_cache (_canvas_cache initial_state)
  ∧ _canvas_data_storage st2 = _canvas_data_storage initial_state.
Proof.
  apply (track_then_query "f1" "f2" 1 2 "start" "ok" "done" "ok" (Some "x") None
           initial_state); discriminate.
Defined.

(** ** The cache, taken on any state *)

(** X14. [restore_cache] is not idempotent: at a new execution id it empties the
    live fields although the shadow copy holds a pair, and the next
    [restore_cache] at that same id brings the pair back. *)
Theorem restore_clears_then_restores (now : Z) (st : state) (i m : tensor) :
  Cache.last_execution_id (_canvas_cache st) ≠ Some now →
  Cache.persistent_cache (_canvas_cache st)
  = Some (Persistent.Make (Some i) (Some m)) →
  get_cached_data (restore_cache now st) = (None, None)
  ∧ get_cached_data (restore_cache now (restore_cache now st)) = (Some i, Some m).
Proof.
  intros Hne Hp. unfold get_cached_data, restore_cache, restore_cache_on,
    get_execution_id. simpl.
  rewrite decide_True by congruence. simpl.
  rewrite decide_False by (intros H; by apply H).
  by rewrite Hp.
Qed.

Lemma restore_clears_then_restores_witness :
  let st := set_cache
              (Cache.Make (Some blank_image) (Some blank_mask) ∅
                 (Some (Persistent.Make (Some blank_image) (Some blank_mask)))
                 (Some 1))
              initial_state in
  get_cached_data (restore_cache 2 st) = (None, None)
  ∧ get_cached_data (restore_cache 2 (restore_cache 2 st))
    = (Some blank_image, Some blank_mask).
Proof.
  apply (restore_clears_then_restores 2 _ blank_image blank_mask);
    [discriminate | reflexivity].
Defined.

(** X15. Within one execution, refreshing the shadow copy and restoring from it
    is a round trip: [restore_cache] after [update_persistent_cache] changes
    nothing, whatever the live fields hold. *)
Theorem update_then_restore (now : Z) (st : state) :
  Cache.last_execution_id (_canvas_cache st) = Some now →
  restore_cache now (update_persistent_cache st) = update_persistent_cache st.
Proof.
  intros He. unfold restore_cache, update_persistent_cache, restore_cache_on,
    update_persistent_cache_on, set_cache, get_execution_id. simpl.
  rewrite decide_False by (intros H; by apply H).
  rewrite He. simpl.
  by destruct (Cache.image (_canvas_cache st)), (Cache.mask (_canvas_cache st)).
Qed.

Lemma update_then_restore_witness :
  let st := set_cache
              (Cache.Make (Some blank_image) None ∅ None (Some 5)) initial_state in
  restore_cache 5 (update_persistent_cache st) = update_persistent_cache st.
Proof.
  apply (update_then_restore 5). reflexivity.
Defined.

(** X16. Whatever operations ran from the initial state, the cache route answers
    success with [image: null] and [mask: null]: no image a call produced is
    ever served by it. *)
Theorem get_canvas_data_always_empty (c : codec) (os : list op) (node_id : string) :
  fst (get_canvas_data node_id (run_ops c os initial_state)) = CanvasOk None None.
Proof.
  unfold get_canvas_data.
  destruct (never_filled_run_ops c os initial_state) as (-> & -> & _).
  - by unfold never_filled.
  - reflexivity.
Qed.

(** ** The logger *)

Section LoggerFacts.
Import Logger.
Implicit Types (lg : Logger.t) (mdl : string) (l : LogLevel).

(** X17. The level test is a threshold: a module that lets a level through lets
    every higher level through. *)
Theorem logger_level_monotone lg mdl l l' :
  is_level_enabled lg mdl l = true →
  level_value l ≤ level_value l' →
  is_level_enabled lg mdl l' = true.
Proof.
  unfold is_level_enabled. intros H Hle.
  destruct (enabled lg); simpl in *; [|done].
  case_decide; [done|]. lia.
Qed.

Lemma logger_level_monotone_witness :
  is_level_enabled Logger.new "canvas_node" ERROR = true.
Proof.
  apply (logger_level_monotone Logger.new "canvas_node" INFO ERROR);
    [reflexivity | simpl; lia].
Defined.

(** X18. A level set for a module decides alone for that module, whatever the
    global level is set to afterwards, and it changes nothing for the other
    modules. *)
Theorem module_level_overrides_global lg mdl mdl' l g lv :
  mdl' ≠ mdl →
  is_level_enabled (set_global_level g (set_module_level mdl l lg)) mdl lv
  = is_level_enabled (set_module_level mdl l lg) mdl lv
  ∧ is_level_enabled (set_module_level mdl l lg) mdl lv
    = (enabled lg && bool_decide (l ≠ NONE)
       && (level_value lv >=? level_value l))
  ∧ is_level_enabled (set_module_level mdl l lg) mdl' lv
    = is_level_enabled lg mdl' lv.
Proof.
  intros Hne. unfold is_level_enabled, set_global_level, set_module_level,
    set_cfg. simpl.
  rewrite lookup_insert_eq, lookup_insert_ne by done. simpl.
  destruct (enabled lg); simpl; [|done].
  repeat split. case_decide; [by rewrite bool_decide_false by tauto|].
  by rewrite bool_decide_true.
Qed.

Lemma module_level_overrides_global_witness :
  is_level_enabled
    (set_global_level DEBUG (set_module_level "canvas_node" ERROR Logger.new))
    "canvas_node" INFO
  = is_level_enabled (set_module_level "canvas_node" ERROR Logger.new)
      "canvas_node" INFO
  ∧ is_level_enabled (set_module_level "canvas_node" ERROR Logger.new)
      "canvas_node" INFO
    = (enabled Logger.new && bool_decide (ERROR ≠ NONE)
       && (level_value INFO >=? level_value ERROR))
  ∧ is_level_enabled (set_module_level "canvas_node" ERROR Logger.new)
      "other" INFO
    = is_level_enabled Logger.new "other" INFO.
Proof.
  apply (module_level_overrides_global Logger.new "canvas_node" "other" ERROR
           DEBUG INFO). discriminate.
Defined.

(** X19. Silence: a disabled logger, a module set to [NONE], and the global
    level [NONE] for a module with no setting of its own, let no level
    through, not even [NONE] itself; and a suppressed call of [log] writes
    nothing and creates no logger. *)
Theorem logger_silenced can_open lg mdl l args exc :
  is_level_enabled (set_enabled false lg) mdl l = false
  ∧ is_level_enabled (set_module_level mdl NONE lg) mdl l = false
  ∧ (module_settings (cfg lg) !! mdl = None →
     is_level_enabled (set_global_level NONE lg) mdl l = false)
  ∧ log can_open mdl l args exc (set_module_level mdl NONE lg)
    = (Some [], set_module_level mdl NONE lg).
Proof.
  assert (H : is_level_enabled (set_module_level mdl NONE lg) mdl l = false).
  { unfold is_level_enabled, set_module_level, set_cfg. simpl.
    rewrite lookup_insert_eq. simpl. by destruct (enabled lg). }
  split; [done|]. split; [exact H|]. split.
  - intros Hm. unfold is_level_enabled, set_global_level, set_cfg. simpl.
    rewrite Hm. simpl. by destruct (enabled lg).
  - unfold log. by rewrite H.
Qed.

Lemma get_logger_cached can_open mdl lg :
  mdl ∈ loggers lg →
  _get_logger can_open mdl lg = (Some (default [] (handlers lg !! mdl)), lg).
Proof. intros H. unfold _get_logger. by rewrite decide_True. Qed.

Lemma get_logger_console_only can_open mdl lg :
  mdl ∉ loggers lg →
  log_to_file (cfg lg) = false →
  fst (_get_logger can_open mdl lg)
  = Some (default [] (handlers lg !! mdl)
          ++ [StreamHandler (timestamp_format (cfg lg)) (use_colors (cfg lg))]).
Proof. intros H Hf. unfold _get_logger. by rewrite decide_False, Hf. Qed.

Lemma get_logger_with_file can_open mdl lg :
  mdl ∉ loggers lg →
  log_to_file (cfg lg) = true →
  can_open (log_dir (cfg lg)) ("layerforge_" +:+ mdl +:+ ".log") = true →
  fst (_get_logger can_open mdl lg)
  = Some ((default [] (handlers lg !! mdl)
           ++ [StreamHandler (timestamp_format (cfg lg)) (use_colors (cfg lg))])
          ++ [RotatingFileHandler (log_dir (cfg lg))
                ("layerforge_" +:+ mdl +:+ ".log")
                (max_file_size_mb (cfg lg) * 1024 * 1024) (backup_count (cfg lg))]).
Proof. intros H Hf Ho. unfold _get_logger. by rewrite decide_False, Hf, Ho. Qed.

(** When the log file cannot be opened, [_get_logger] raises after the
    console handler was attached and before the logger is cached, so each
    such call attaches one more console handler. *)
Lemma get_logger_cannot_open can_open mdl lg :
  mdl ∉ loggers lg →
  log_to_file (cfg lg) = true →
  can_open (log_dir (cfg lg)) ("layerforge_" +:+ mdl +:+ ".log") = false →
  fst (_get_logger can_open mdl lg) = None
  ∧ loggers (snd (_get_logger can_open mdl lg)) = loggers lg
  ∧ handlers (snd (_get_logger can_open mdl lg)) !! mdl
    = Some (default [] (handlers lg !! mdl)
            ++ [StreamHandler (timestamp_format (cfg lg)) (use_colors (cfg lg))]).
Proof.
  intros H Hf Ho. unfold _get_logger. rewrite decide_False, Hf, Ho by done.
  simpl. by rewrite lookup_insert_eq.
Qed.

(** X20. Once a module has logged, its handlers are fixed: a later [configure]
    (switching on file logging, changing the colours or the time format)
    does not reach that module, whose logger is found in [self.loggers]. *)
Theorem configure_misses_cached_logger can_open lg mdl makedirs u :
  mdl ∈ loggers lg →
  fst (_get_logger can_open mdl (configure makedirs u lg))
  = fst (_get_logger can_open mdl lg)
  ∧ fst (_get_logger can_open mdl lg) = Some (default [] (handlers lg !! mdl))
  ∧ loggers (snd (_get_logger can_open mdl (configure makedirs u lg)))
    = loggers lg.
Proof.
  intros H.
  assert (Hl : loggers (configure makedirs u lg) = loggers lg
               ∧ handlers (configure makedirs u lg) = handlers lg).
  { unfold configure. repeat case_match; done. }
  destruct Hl as [Hl Hh].
  rewrite !get_logger_cached by (by rewrite ?Hl). simpl. by rewrite Hh, Hl.
Qed.

Lemma configure_misses_cached_logger_witness :
  let can_open := fun _ _ : string => false in
  let lg := snd (info can_open "canvas_node" ["started"] Logger.new) in
  let u := ConfigUpdate None None (Some true) (Some "logs") None None None in
  fst (_get_logger can_open "canvas_node" (configure (fun _ => true) u lg))
  = fst (_get_logger can_open "canvas_node" lg)
  ∧ fst (_get_logger can_open "canvas_node" lg)
    = Some (default [] (handlers lg !! "canvas_node"))
  ∧ loggers (snd (_get_logger can_open "canvas_node"
                    (configure (fun _ => true) u lg)))
    = loggers lg.
Proof.
  apply (configure_misses_cached_logger (fun _ _ => false)
           (snd (info (fun _ _ => false) "canvas_node" ["started"] Logger.new))
           "canvas_node").
  vm_compute. set_solver.
Defined.

Lemma set_file_logging_ok_state makedirs on lg :
  set_file_logging makedirs on None lg
  = (Some tt, Make (set_log_to_file on (cfg lg)) (enabled lg) ∅ (handlers lg)).
Proof. reflexivity. Qed.

(** X21. Handlers pile up.  [set_file_logging] empties [self.loggers] but the
    [logging] logger of a module keeps the handlers it has, so, provided the
    log file can be opened when file logging is switched on, the next
    message of a module that had [hs] handlers is written to all of [hs],
    to one more console handler, and to a file handler when file logging is
    on: every console line of that module now appears twice.  When the log
    file cannot be opened, the call raises instead, and the extra console
    handler stays attached all the same. *)
Theorem handlers_accumulate can_open lg mdl l args exc makedirs on
    (hs : list handler) :
  handlers lg !! mdl = Some hs →
  is_level_enabled lg mdl l = true →
  let lg' := snd (set_file_logging makedirs on None lg) in
  let file_name := "layerforge_" +:+ mdl +:+ ".log" in
  let console := StreamHandler (timestamp_format (cfg lg)) (use_colors (cfg lg)) in
  let fresh :=
    console
    :: (if on then
          [RotatingFileHandler (log_dir (cfg lg)) file_name
             (max_file_size_mb (cfg lg) * 1024 * 1024) (backup_count (cfg lg))]
        else []) in
  if on && negb (can_open (log_dir (cfg lg)) file_name) then
    fst (log can_open mdl l args exc lg') = None
    ∧ handlers (snd (log can_open mdl l args exc lg')) !! mdl
      = Some (hs ++ [console])
    ∧ mdl ∉ loggers (snd (log can_open mdl l args exc lg'))
  else
    fst (log can_open mdl l args exc lg')
    = Some (map (λ h, Emission h (LEVEL_MAP l) (join_args args) exc)
              (hs ++ fresh))
    ∧ length <$> fst (log can_open mdl l args exc lg')
      = Some (length hs + (if on then 2 else 1))%nat.
Proof.
  intros Hh Hen. cbv zeta. rewrite set_file_logging_ok_state. simpl.
  set (lg' := Make (set_log_to_file on (cfg lg)) (enabled lg) ∅ (handlers lg)).
  assert (Hen' : is_level_enabled lg' mdl l = true) by exact Hen.
  assert (Hnew : mdl ∉ loggers lg') by (simpl; set_solver).
  unfold log. rewrite Hen'. simpl.
  destruct on; simpl.
  - destruct (can_open (log_dir (cfg lg)) ("layerforge_" +:+ mdl +:+ ".log"))
      eqn:Ho; simpl.
    + pose proof (get_logger_with_file can_open mdl lg' Hnew eq_refl Ho) as Hg.
      destruct (_get_logger can_open mdl lg') as [[hs'|] lg''] eqn:E;
        simpl in Hg; [|done].
      injection Hg as ->. simpl. rewrite Hh. simpl.
      rewrite <- app_assoc, length_map, length_app. simpl.
      split; [done | f_equal; lia].
    + pose proof (get_logger_cannot_open can_open mdl lg' Hnew eq_refl Ho)
        as (Hg & Hl & Hhs).
      destruct (_get_logger can_open mdl lg') as [[hs'|] lg''] eqn:E;
        simpl in *; [done|].
      rewrite Hhs, Hl, Hh. simpl. split; [done|]. split; [done | set_solver].
  - pose proof (get_logger_console_only can_open mdl lg' Hnew eq_refl) as Hg.
    destruct (_get_logger can_open mdl lg') as [[hs'|] lg''] eqn:E;
      simpl in Hg; [|done].
    injection Hg as ->. simpl. rewrite Hh. simpl.
    rewrite length_map, length_app. simpl. split; [done | f_equal; lia].
Qed.

Lemma handlers_accumulate_witness :
  let can_open := fun _ _ : string => true in
  let lg := snd (info can_open "canvas_node" ["started"] Logger.new) in
  let lg' := snd (set_file_logging (fun _ => true) true None lg) in
  fst (log can_open "canvas_node" INFO ["again"] false lg')
  = Some (map (λ h, Emission h 20 "again" false)
            [StreamHandler "%H:%M:%S" true; StreamHandler "%H:%M:%S" true;
             RotatingFileHandler "logs" "layerforge_canvas_node.log"
               (10 * 1024 * 1024) 5])
  ∧ length <$> fst (log can_open "canvas_node" INFO ["again"] false lg')
    = Some 3%nat.
Proof.
  apply (handlers_accumulate (fun _ _ => true)
           (snd (info (fun _ _ => true) "canvas_node" ["started"] Logger.new))
           "canvas_node" INFO ["again"] false (fun _ => true) true
           [StreamHandler "%H:%M:%S" true]); reflexivity.
Defined.

(** X22. When the log directory cannot be created, [configure] switches file
    logging off: the configuration says so, and the logger of a module that
    has not logged yet gets a console handler and no file handler. *)
Theorem configure_falls_back_to_console can_open lg mdl makedirs u :
  log_to_file (update u (cfg lg)) = true →
  log_dir (update u (cfg lg)) ≠ "" →
  makedirs (log_dir (update u (cfg lg))) = false →
  mdl ∉ loggers lg →
  let lg' := configure makedirs u lg in
  log_to_file (cfg lg') = false
  ∧ fst (_get_logger can_open mdl lg')
    = Some (default [] (handlers lg !! mdl)
            ++ [StreamHandler (timestamp_format (update u (cfg lg)))
                  (use_colors (update u (cfg lg)))]).
Proof.
  intros Hf Hd Hmk Hm. cbv zeta.
  assert (Hc : configure makedirs u lg
               = set_cfg (set_log_to_file false (update u (cfg lg))) lg).
  { unfold configure. rewrite Hf, Hmk.
    apply String.eqb_neq in Hd. by rewrite Hd. }
  rewrite Hc. split; [reflexivity|].
  by rewrite get_logger_console_only.
Qed.

Lemma configure_falls_back_to_console_witness :
  let u := ConfigUpdate None None (Some true) (Some "/nowhere/logs") None None None in
  let lg' := configure (fun _ => false) u Logger.new in
  log_to_file (cfg lg') = false
  ∧ fst (_get_logger (fun _ _ => false) "canvas_node" lg')
    = Some [StreamHandler "%H:%M:%S" true].
Proof.
  apply (configure_falls_back_to_console (fun _ _ => false) Logger.new
           "canvas_node" (fun _ => false)
           (ConfigUpdate None None (Some true) (Some "/nowhere/logs") None None None));
    [reflexivity | discriminate | reflexivity | set_solver].
Defined.

(** X23. Warnings are never coloured.  A call of [warn] reaches [logging] at
    level 30, whose name is "WARNING"; [LogLevel] has no member of that
    name, so the console line of a warning is the same with and without
    [use_colors], while the lines of [debug], [info] and [error] start with
    the bold and colour codes. *)
Theorem warnings_are_not_coloured mdl time msg exc :
  LEVEL_MAP WARN = 30
  ∧ format true (record_of mdl WARN time msg exc)
    = format false (record_of mdl WARN time msg exc)
  ∧ format true (record_of mdl NONE time msg exc)
    = format false (record_of mdl NONE time msg exc)
  ∧ ∀ l, l = DEBUG ∨ l = INFO ∨ l = ERROR →
      ∃ col, COLORS l = Some col
             ∧ format true (record_of mdl l time msg exc)
               = (ESC +:+ "[1m" +:+ col
                  +:+ ("[" +:+ time +:+ "] [" +:+ ("layerforge." +:+ mdl) +:+ "] ["
                       +:+ levelname l +:+ "]")
                  +:+ RESET)
                 +:+ " "
                 +:+ match exc with
                     | Some e => msg +:+ String "010"%char EmptyString +:+ e
                     | None => msg
                     end.
Proof.
  split; [reflexivity|]. split; [reflexivity|]. split; [reflexivity|].
  intros l [ -> | [ -> | -> ] ]; eexists; (split; [reflexivity|]);
    reflexivity.
Qed.

End LoggerFacts.

(** ** The files of the output directory *)

Section FilesFacts.
Import Files.
Implicit Types (listing : list file) (l : list (Z * string)).

Lemma insert_by_key_perm x l : insert_by_key x l ≡ₚ x :: l.
Proof.
  induction l as [|y l IH]; simpl; [done|].
  case_match; [done|]. rewrite IH. apply Permutation_swap.
Qed.

Lemma sort_by_key_perm l : sort_by_key l ≡ₚ l.
Proof.
  induction l as [|x l IH]; simpl; [done|].
  rewrite insert_by_key_perm. by rewrite IH.
Qed.

Lemma insert_by_key_sorted x l :
  StronglySorted (λ a b, fst a ≤ fst b) l →
  StronglySorted (λ a b, fst a ≤ fst b) (insert_by_key x l).
Proof.
  induction 1 as [|y l Hs IH Hy]; simpl.
  - repeat constructor.
  - destruct (fst x <=? fst y) eqn:E.
    + apply Z.leb_le in E. constructor; [by constructor|].
      constructor; [done|].
      eapply Forall_impl; [exact Hy|]. simpl. intros; lia.
    + apply Z.leb_gt in E. constructor; [exact IH|].
      rewrite insert_by_key_perm. constructor; [lia | exact Hy].
Qed.

Lemma sort_by_key_sorted l :
  StronglySorted (λ a b, fst a ≤ fst b) (sort_by_key l).
Proof.
  induction l as [|x l IH]; simpl; [constructor|].
  by apply insert_by_key_sorted.
Qed.

Lemma insert_by_key_stable k x l :
  filter (λ y, fst y = k) (insert_by_key x l)
  = filter (λ y, fst y = k) (x :: l).
Proof.
  induction l as [|y l IH]; simpl; [done|].
  destruct (fst x <=? fst y) eqn:E; [done|]. apply Z.leb_gt in E.
  rewrite (filter_cons _ y), IH, !filter_cons.
  repeat case_decide; try done; lia.
Qed.

(** X24. The list [get_latest_images] returns is the list of the collected
    paths, sorted by modification time, oldest first; nothing is lost or
    added by the sort, and files with the same time stay in the order of
    the directory listing. *)
Theorem get_latest_images_sorted (since_timestamp : Z) listing :
  let files := sort_by_key (newer_files since_timestamp listing) in
  get_latest_images since_timestamp listing = snd <$> files
  ∧ StronglySorted (λ a b, fst a ≤ fst b) files
  ∧ files ≡ₚ newer_files since_timestamp listing
  ∧ ∀ k, filter (λ y, fst y = k) files
         = filter (λ y, fst y = k) (newer_files since_timestamp listing).
Proof.
  cbv zeta. split; [reflexivity|].
  split; [apply sort_by_key_sorted|]. split; [apply sort_by_key_perm|].
  intros k. induction (newer_files since_timestamp listing) as [|x l IH];
    simpl; [done|].
  rewrite insert_by_key_stable, !filter_cons. by rewrite IH.
Qed.

Lemma elem_of_newer_files since_timestamp listing t p :
  (t, p) ∈ newer_files since_timestamp listing
  ↔ ∃ f, f ∈ listing ∧ path f = p ∧ isfile f = true
         ∧ is_image_path p = true ∧ getmtime f = Some t ∧ since_timestamp < t.
Proof.
  induction listing as [|f listing IH].
  { simpl. split; [by intros ?%elem_of_nil | by intros (? & ?%elem_of_nil & _)]. }
  set (Q := λ g, path g = p ∧ isfile g = true ∧ is_image_path p = true
                 ∧ getmtime g = Some t ∧ since_timestamp < t) in *.
  assert (Hex : (∃ g, g ∈ f :: listing ∧ Q g)
                ↔ Q f ∨ (t, p) ∈ newer_files since_timestamp listing).
  { split.
    - intros (g & [->|Hg]%elem_of_cons & HQ); [by left|].
      right. apply IH. by exists g.
    - intros [HQ | (g & Hg & HQ)%IH]; [exists f | exists g];
        (split; [|done]); apply elem_of_cons; eauto. }
  transitivity (Q f ∨ (t, p) ∈ newer_files since_timestamp listing);
    [|symmetry; exact Hex].
  clear Hex IH. simpl.
  destruct (isfile f && is_image_path (path f)) eqn:E.
  - apply andb_prop in E as [E1 E2].
    destruct (getmtime f) as [mtime|] eqn:Em.
    + destruct (mtime >? since_timestamp) eqn:Eg.
      * rewrite Z.gtb_ltb in Eg. apply Z.ltb_lt in Eg.
        rewrite elem_of_cons. unfold Q. split.
        -- intros [[= -> ->]|H]; [left | by right]. by rewrite Em.
        -- intros [(Hp & _ & _ & Ht & _)|H]; [left | by right].
           rewrite Em in Ht. injection Ht as ->. by rewrite Hp.
      * rewrite Z.gtb_ltb in Eg. apply Z.ltb_ge in Eg. unfold Q. split.
        -- by right.
        -- intros [(_ & _ & _ & Ht & Hlt)|H]; [|done].
           rewrite Em in Ht. injection Ht as ->. lia.
    + unfold Q. split; [by right|].
      intros [(_ & _ & _ & Ht & _)|H]; [|done]. by rewrite Em in Ht.
  - unfold Q. split; [by right|].
    intros [(Hp & Hf & Hi & _)|H]; [|done].
    subst p. by rewrite Hf, Hi in E.
Qed.

(** X25. A path is returned by [get_latest_images] exactly when the listing has
    a regular file of that path with an image extension (in any letter case)
    whose modification time can be read and is later than the given time; a
    file whose [getmtime] raises is left out and does not fail the call. *)
Theorem get_latest_images_membership (since_timestamp : Z) listing (p : string) :
  p ∈ get_latest_images since_timestamp listing
  ↔ ∃ f t, f ∈ listing ∧ path f = p ∧ isfile f = true
           ∧ is_image_path p = true ∧ getmtime f = Some t
           ∧ since_timestamp < t.
Proof.
  unfold get_latest_images. rewrite list_elem_of_fmap. split.
  - intros ([t p'] & -> & Hin). rewrite sort_by_key_perm in Hin.
    apply elem_of_newer_files in Hin as (f & ?). exists f, t. done.
  - intros (f & t & H). exists (t, p). split; [done|].
    rewrite sort_by_key_perm. apply elem_of_newer_files. eauto.
Qed.

Lemma max_by_ctime_spec (rest : list file) (t : Z) (f : file) :
  match max_by_ctime (t, f) rest with
  | Some latest =>
      ∃ tl, (latest = f ∧ tl = t ∨ latest ∈ rest ∧ getctime latest = Some tl)
            ∧ t ≤ tl
            ∧ ∀ g, g ∈ rest → ∃ t', getctime g = Some t' ∧ t' ≤ tl
  | None => ∃ g, g ∈ rest ∧ getctime g = None
  end.
Proof.
  revert t f. induction rest as [|g rest IH]; intros t f; simpl.
  - exists t. split; [by left|]. split; [lia|]. by intros g ?%elem_of_nil.
  - destruct (getctime g) as [tg|] eqn:Eg.
    2:{ exists g. split; [apply elem_of_cons; by left | done]. }
    destruct (tg >? t) eqn:E; rewrite Z.gtb_ltb in E.
    + apply Z.ltb_lt in E. specialize (IH tg g).
      destruct (max_by_ctime (tg, g) rest) as [latest|].
      * destruct IH as (tl & Hl & Hle & Hall). exists tl. split.
        { right. destruct Hl as [[-> ->]|[Hin Hc]].
          - split; [apply elem_of_cons; by left | done].
          - split; [apply elem_of_cons; by right | done]. }
        split; [lia|]. intros g' [->|Hin]%elem_of_cons; [eauto | by apply Hall].
      * destruct IH as (g' & Hin & Hc). exists g'.
        split; [apply elem_of_cons; by right | done].
    + apply Z.ltb_ge in E. specialize (IH t f).
      destruct (max_by_ctime (t, f) rest) as [latest|].
      * destruct IH as (tl & Hl & Hle & Hall). exists tl. split.
        { destruct Hl as [[-> ->]|[Hin Hc]]; [by left|].
          right. split; [apply elem_of_cons; by right | done]. }
        split; [lia|]. intros g' [->|Hin]%elem_of_cons; [|by apply Hall].
        exists tg. split; [done | lia].
      * destruct IH as (g' & Hin & Hc). exists g'.
        split; [apply elem_of_cons; by right | done].
Qed.

(** X26. [get_latest_image] answers [None] exactly when the directory has no
    regular file with an image extension; otherwise it answers the path of
    such a file whose creation time is the greatest of all of them; and it
    fails exactly when the creation time of one of them cannot be read. *)
Theorem get_latest_image_newest listing :
  let image := λ g, isfile g = true ∧ is_image_path (path g) = true in
  match get_latest_image listing with
  | inr None => ∀ g, g ∈ listing → ¬ image g
  | inr (Some p) =>
      ∃ f t, f ∈ listing ∧ image f ∧ path f = p ∧ getctime f = Some t
             ∧ ∀ g, g ∈ listing → image g →
                    ∃ t', getctime g = Some t' ∧ t' ≤ t
  | inl _ => ∃ g, g ∈ listing ∧ image g ∧ getctime g = None
  end.
Proof.
  cbv zeta. unfold get_latest_image.
  set (images := filter (λ f, is_image_path (path f) = true)
                   (filter (λ f, isfile f = true) listing)).
  assert (Him : ∀ g, g ∈ images
                     ↔ g ∈ listing ∧ isfile g = true ∧ is_image_path (path g) = true).
  { intros g. unfold images. rewrite !list_elem_of_filter. tauto. }
  destruct images as [|f rest].
  { intros g Hg [Hf Hi]. by apply (elem_of_nil g), Him. }
  assert (Hf : f ∈ f :: rest) by (apply elem_of_cons; by left).
  destruct (getctime f) as [t|] eqn:Et.
  2:{ exists f. apply Him in Hf. tauto. }
  pose proof (max_by_ctime_spec rest t f) as Hmax.
  destruct (max_by_ctime (t, f) rest) as [latest|].
  - destruct Hmax as (tl & Hl & Hle & Hall).
    assert (Hlatest : latest ∈ f :: rest ∧ getctime latest = Some tl).
    { destruct Hl as [[-> ->]|[Hin Hc]]; [done|].
      split; [apply elem_of_cons; by right | done]. }
    destruct Hlatest as [Hin Hc]. apply Him in Hin as (Hin & Hfile & Himg).
    exists latest, tl. repeat split; try done.
    intros g Hg [Hgf Hgi].
    assert (Hg' : g ∈ f :: rest) by (apply Him; done).
    apply elem_of_cons in Hg' as [->|Hg']; [|by apply Hall].
    exists t. split; [done | lia].
  - destruct Hmax as (g & Hin & Hc). exists g.
    assert (Hg : g ∈ f :: rest) by (apply elem_of_cons; by right).
    apply Him in Hg. tauto.
Qed.

(** X27. The path route opens a file only if its path is a non-empty string, the
    file exists and the path has one of the ten image extensions: a success
    reply implies all three, and for any other request the reply does not
    depend on what opening files would give.  The existence test comes
    first: a missing file is answered 404 whatever its extension. *)
Theorem load_image_needs_extension (exists_ : string → bool) (fd_exists : Z → bool)
    (load load' : string → option (string * N * N)) (file_path : jvalue) :
  (∀ image_data w h,
     load_image_from_path_route exists_ fd_exists load file_path
     = Loaded image_data w h →
     ∃ p img_str, file_path = JStr p ∧ p ≠ "" ∧ exists_ p = true
                  ∧ endswith_any valid_extensions (lower p) = true
                  ∧ load p = Some (img_str, w, h)
                  ∧ image_data = "data:image/png;base64," +:+ img_str)
  ∧ ((∀ p, file_path = JStr p →
           exists_ p = false
           ∨ endswith_any valid_extensions (lower p) = false) →
     load_image_from_path_route exists_ fd_exists load' file_path
     = load_image_from_path_route exists_ fd_exists load file_path)
  ∧ (∀ p, file_path = JStr p → p ≠ "" → exists_ p = false →
          load_image_from_path_route exists_ fd_exists load file_path
          = FileNotFound).
Proof.
  unfold load_image_from_path_route. repeat split.
  - intros image_data w h.
    destruct file_path as [|b|z|p]; [done| | |].
    + destruct b; simpl; [|done]. by destruct (fd_exists 1).
    + simpl. destruct (z =? 0); simpl; [done|]. by destruct (fd_exists z).
    + destruct (negb (truthy (JStr p))) eqn:Ep; [done|].
      destruct (negb (exists_ p)) eqn:Ee; [done|].
      destruct (negb (endswith_any valid_extensions (lower p))) eqn:Ev; [done|].
      destruct (load p) as [[[img_str w'] h']|] eqn:El; [|done].
      intros [= <- <- <-]. exists p, img_str.
      apply negb_false_iff in Ep, Ee, Ev. simpl in Ep.
      apply negb_true_iff, String.eqb_neq in Ep. done.
  - intros H. destruct file_path as [|b|z|p]; try done.
    destruct (negb (truthy (JStr p))); [done|].
    destruct (H p eq_refl) as [-> | ->]; simpl; [done|].
    by destruct (exists_ p).
  - intros p -> Hp He. simpl.
    apply String.eqb_neq in Hp. by rewrite Hp, He.
Qed.

End FilesFacts.

Example get_latest_images_example :
  Files.get_latest_images 10
    [Files.File "out/b.PNG" true (Some 30) (Some 1);
     Files.File "out/notes.txt" true (Some 40) (Some 1);
     Files.File "out/a.jpg" true (Some 20) (Some 1);
     Files.File "out/old.gif" true (Some 5) (Some 1);
     Files.File "out/gone.bmp" true None (Some 1);
     Files.File "out/dir.png" false (Some 50) (Some 1);
     Files.File "out/c.jpeg" true (Some 20) (Some 1)]
  = ["out/a.jpg"; "out/c.jpeg"; "out/b.PNG"].
Proof. reflexivity. Qed.

(** ** The image kept by a node instance *)

Section ImageStoreFacts.
Import ImageStore.

Lemma startswith_app prefix header rest :
  Files.startswith prefix header = true →
  Files.startswith prefix (header +:+ rest) = true.
Proof.
  revert header. induction prefix as [|a prefix IH]; intros header; [done|].
  destruct header as [|b header]; simpl; [done|].
  intros [Hab Hp]%andb_prop. rewrite Hab. simpl. by apply IH.
Qed.

(** X28. [store_image] followed by [get_cached_image]: a data URI whose payload
    opens as an image is kept as that image and comes back re-encoded as a
    PNG data URI; a string that is no data URI is kept as it is, and
    [get_cached_image] then raises (a non-empty string has no [save]) or
    answers [None] (the empty string); and before any [store_image] the
    attribute does not exist. *)
Theorem store_image_then_get (open_image : string → option pil_image)
    (save_png : pil_image → option string) (header payload plain img_str : string)
    (p : pil_image) (self : instance) :
  Files.startswith "data:image" header = true →
  sep_free "," header = true →
  sep_free "," payload = true →
  open_image payload = Some p →
  save_png p = Some img_str →
  Files.startswith "data:image" plain = false →
  (store_image open_image (Value (JStr (header +:+ "," +:+ payload))) self
   = inr (Some (Pil p))
   ∧ get_cached_image save_png (Some (Pil p))
     = inr (Some ("data:image/png;base64," +:+ img_str)))
  ∧ (store_image open_image (Value (JStr plain)) self
     = inr (Some (Raw (JStr plain)))
     ∧ get_cached_image save_png (Some (Raw (JStr plain)))
       = if String.eqb plain "" then inr None else inl StoreAttributeError)
  ∧ get_cached_image save_png None = inl StoreAttributeError.
Proof.
  intros Hh Hsh Hsp Ho Hs Hplain. repeat split.
  - unfold store_image. rewrite startswith_app by done.
    change ("," +:+ payload) with (String "," payload).
    rewrite split_app_sep, split_sep_free by done. simpl. by rewrite Ho.
  - simpl. by rewrite Hs.
  - unfold store_image. by rewrite Hplain.
  - simpl. by destruct (String.eqb plain "").
Qed.

Lemma store_image_then_get_witness :
  (store_image (decode_rgb sample_codec)
     (Value (JStr ("data:image/png;base64" +:+ "," +:+ "AAAA"))) None
   = inr (Some (Pil (PilImage 1 1 [255%N; 0%N; 0%N])))
   ∧ get_cached_image (fun _ => Some "AAAA")
       (Some (Pil (PilImage 1 1 [255%N; 0%N; 0%N])))
     = inr (Some ("data:image/png;base64," +:+ "AAAA")))
  ∧ (store_image (decode_rgb sample_codec) (Value (JStr "hello")) None
     = inr (Some (Raw (JStr "hello")))
     ∧ get_cached_image (fun _ => Some "AAAA") (Some (Raw (JStr "hello")))
       = if String.eqb "hello" "" then inr None else inl StoreAttributeError)
  ∧ get_cached_image (fun _ => Some "AAAA") None = inl StoreAttributeError.
Proof.
  apply (store_image_then_get (decode_rgb sample_codec) (fun _ => Some "AAAA")
           "data:image/png;base64" "AAAA" "hello" "AAAA"
           (PilImage 1 1 [255%N; 0%N; 0%N]) None); reflexivity.
Defined.

End ImageStoreFacts.

(** ** The matting gate *)

Section MattingFacts.
Import Matting.

Lemma step_gate_ok available g e : gate_ok g → gate_ok (step available g e).
Proof.
  intros [[Hl Hr]|[Hl Hr]]; destruct e as [|b]; unfold step, enter, gate_ok;
    rewrite ?Hl, ?Hr; destruct available; simpl; rewrite ?Hl, ?Hr; auto.
Qed.

(** X29. Matting is single-flight: whatever the order in which requests arrive
    and admitted requests finish, at most one request is inside the [try];
    the lock is held exactly while one is; and a request arriving meanwhile
    is answered 429 and leaves the lock held. *)
Theorem matting_single_flight (available : bool) (events : list event) :
  let g := run available events in
  (running g ≤ 1)%nat
  ∧ (lock g = true ↔ running g = 1%nat)
  ∧ (available = true → running g = 1%nat →
     enter available (lock g) = (Some Busy, true)).
Proof.
  cbv zeta.
  assert (H : gate_ok (run available events)).
  { unfold run. generalize (Gate false 0) (or_intror (conj eq_refl eq_refl)
                                              : gate_ok (Gate false 0)).
    induction events as [|e events IH]; intros g Hg; simpl; [exact Hg|].
    apply IH. by apply step_gate_ok. }
  destruct H as [[Hl Hr]|[Hl Hr]]; rewrite Hl, Hr.
  - split; [lia|]. split; [done|]. by intros ->.
  - split; [lia|]. split; [done|]. done.
Qed.

End MattingFacts.

(** ** Entries pushed under a numeric node id *)

Lemma complete_call_storage_other c a st (k : pykey) :
  k ≠ input_key (Args.node_id a) →
  k ≠ inl (Args.node_id a) →
  _canvas_data_storage (snd (complete_call c a st)) !! k
  = _canvas_data_storage st !! k.
Proof.
  intros Hk1 Hk2. unfold complete_call.
  pose proof (guarded_region_storage c a st) as Hs.
  pose proof (guarded_region_input_fails c a st) as Hf.
  destruct (build_input_data c a) as [d|].
  - specialize (Hs d eq_refl).
    destruct (guarded_region c a st) as [[e|[i m]] st2]; simpl in *;
      rewrite storage_finally_release, Hs;
      rewrite lookup_delete_ne, lookup_insert_ne by done; done.
  - rewrite (Hf eq_refl). simpl. by rewrite storage_finally_release.
Qed.

Lemma run_op_storage_int_key c o st (z : Z) :
  (∀ t m, o = OpWebsocket t m → key_of (nodeId m) ≠ inr z) →
  _canvas_data_storage (run_op c o st) !! inr z
  = _canvas_data_storage st !! inr z.
Proof.
  intros Hws.
  assert (Hskip : ∀ a, _processing_lock st = true →
            _canvas_data_storage (snd (process_canvas_image c a st))
            = _canvas_data_storage st).
  { intros a Hl. by rewrite process_skipped. }
  destruct o as [now|a|a|a|f now stage status info|now|now msg|n|n]; simpl.
  - unfold __init__. by case_match.
  - destruct (_processing_lock st) eqn:Hl; [by rewrite Hskip|].
    rewrite process_acquired by done.
    by rewrite complete_call_storage_other.
  - destruct (_processing_lock st) eqn:Hl; [by rewrite Hskip|].
    unfold acquire_nonblocking. by rewrite Hl.
  - by rewrite complete_call_storage_other.
  - done.
  - by rewrite cleanup_storage.
  - unfold handle_canvas_websocket. case_match; [done|]. simpl.
    rewrite lookup_insert_ne; [done|]. by apply (Hws now msg).
  - unfold get_input_data. by case_match.
  - unfold clear_input_data. case_match; [|done]. simpl.
    by rewrite lookup_delete_ne.
Qed.

(** X30. A message whose [nodeId] is a JSON number is acknowledged and stored
    under an [int] key, which no call of the step (its node ids are
    strings), no input route and no cleanup ever reads or removes: the entry
    stays as it is through every sequence of operations, until a message
    with the same number replaces it. *)
Theorem numeric_node_id_never_consumed (c : codec) (now z : Z) (img msk : jvalue)
    (os : list op) (st : state) :
  z ≠ 0 →
  Forall (λ o, ∀ t m, o = OpWebsocket t m → key_of (nodeId m) ≠ inr z) os →
  let pushed := handle_canvas_websocket now (WsMessage (JNum z) img msk) st in
  fst pushed = Ack (JNum z)
  ∧ _canvas_data_storage (run_ops c os (snd pushed)) !! inr z
    = Some (Canvas (Snapshot.Make img msk now)).
Proof.
  intros Hz Hos. cbv zeta. unfold handle_canvas_websocket. simpl.
  apply Z.eqb_neq in Hz. rewrite Hz. simpl. split; [done|].
  assert (Hrun : ∀ s, _canvas_data_storage (run_ops c os s) !! inr z
                      = _canvas_data_storage s !! inr z).
  { induction Hos as [|o os Ho Hos IH]; intros s; simpl; [done|].
    rewrite IH. by apply run_op_storage_int_key. }
  rewrite Hrun. simpl. apply lookup_insert_eq.
Qed.

Lemma numeric_node_id_never_consumed_witness :
  let pushed := handle_canvas_websocket 7
                  (WsMessage (JNum 5) (JStr "data:image/png;base64,AAAA") JNull)
                  initial_state in
  fst pushed = Ack (JNum 5)
  ∧ _canvas_data_storage
      (run_ops sample_codec
         [OpProcess (bare_call "5"); OpCleanup 999999999; OpClearInput "5"]
         (snd pushed)) !! inr 5
    = Some (Canvas (Snapshot.Make (JStr "data:image/png;base64,AAAA") JNull 7)).
Proof.
  apply (numeric_node_id_never_consumed sample_codec 7 5
           (JStr "data:image/png;base64,AAAA") JNull
           [OpProcess (bare_call "5"); OpCleanup 999999999; OpClearInput "5"]
           initial_state); [lia|].
  repeat constructor; discriminate.
Defined.
